(** * getmanga: the chapter download pipeline of [getmanga.py]

    A shallow embedding of [src/getmanga/getmanga.py]: Python values and
    exceptions, the file system operations [GetManga.get] performs, the
    worker threads of [GetManga._get_image] with their semaphore and
    queue, and the helpers [uriopen] and [progress]. *)

From Stdlib Require Import Ascii String.
From stdpp Require Import gmap strings list fin_maps.

Local Open Scope string_scope.
Local Open Scope list_scope.

(** ** Python values *)

Abbreviation bytes := (list Byte.byte).

(** Exceptions the program raises or lets through.  [MangaException] is
    the class of the source; its argument is kept as a message. *)
Inductive exn :=
  | MangaException (msg : string)
  | IndexError
  | ZeroDivisionError
  | OSError (msg : string)
  | IOError (msg : string)
  | RequestException (msg : string).

(** Outcome of a Python call: a value or a raised exception. *)
Inductive py (A : Type) :=
  | Ret (a : A)
  | Raise (e : exn).
Arguments Ret {A} a.
Arguments Raise {A} e.

Definition is_manga_exception (e : exn) : bool :=
  match e with MangaException _ => true | _ => false end.

Definition str_exn (e : exn) : string :=
  match e with
  | MangaException m => m
  | IndexError => "list index out of range"
  | ZeroDivisionError => "division by zero"
  | OSError m => m
  | IOError m => m
  | RequestException m => m
  end.

(** [Chapter = namedtuple('Chapter', 'number name uri')] and
    [Page = namedtuple('Page', 'name uri')]. *)
Record Chapter := mkChapter
  { ch_number : string; ch_name : string; ch_uri : string }.
Record Page := mkPage { pg_name : string; pg_uri : string }.

(** ** Python sequences and strings *)

(** [l[i]] for a list and a possibly negative index. *)
Definition py_index {A} (l : list A) (i : Z) : py A :=
  let n := Z.of_nat (length l) in
  let j := if (i <? 0)%Z then (i + n)%Z else i in
  if ((j <? 0) || (n <=? j))%Z then Raise IndexError
  else match l !! Z.to_nat j with
       | Some x => Ret x
       | None => Raise IndexError
       end.

(** [s.split(c)] for a one character separator. *)
Fixpoint split (c : ascii) (s : string) : list string :=
  match s with
  | EmptyString => [EmptyString]
  | String a s' =>
      if Ascii.eqb a c then EmptyString :: split c s'
      else match split c s' with
           | [] => [String a EmptyString]
           | w :: ws => String a w :: ws
           end
  end.

(** [c in s] for a character. *)
Fixpoint contains (c : ascii) (s : string) : bool :=
  match s with
  | EmptyString => false
  | String a s' => Ascii.eqb a c || contains c s'
  end.

(** [os.extsep]. *)
Definition extsep : string := ".".
Definition dot : ascii := "."%char.

(** [uri.split('.')[-1]]: [split] never returns an empty list, so the
    index [-1] is always in range. *)
Definition extension (uri : string) : string :=
  List.last (split dot uri) EmptyString.

(** [page.name + os.extsep + uri.split('.')[-1]] of [_get_image]. *)
Definition member_name (page : Page) (uri : string) : string :=
  pg_name page +:+ extsep +:+ extension uri.

(** Truth value of a string: empty is false. *)
Definition truthy (s : string) : bool :=
  match s with EmptyString => false | _ => true end.

(** ** [GetManga.latest] *)

(** [return self.manga.chapters[-1]]; the [chapters] property may itself
    raise, which [latest] lets through. *)
Definition latest (chapters : py (list Chapter)) : py Chapter :=
  match chapters with
  | Raise e => Raise e
  | Ret cs => py_index cs (-1)
  end.

(** [MangaSite.chapters]: the anchors selected from the index page are
    reversed when the site lists them newest first, filtered by
    [_is_valid_location] and turned into chapters. *)
Record Anchor := mkAnchor { a_href : string; a_text : string }.

Section Chapters.
Variable descending_list : bool.
Variable is_valid_location : string -> bool.
Variable make_chapter : Anchor -> Chapter.

Definition chapters_of (anchors : list Anchor) : list Chapter :=
  let ordered := if descending_list then reverse anchors else anchors in
  make_chapter <$> filter (fun a => is_valid_location (a_href a) = true) ordered.
End Chapters.

(** ** Requests and standard output *)

(** What leaves the process: calls of the site adapter, which fetch and
    parse a page of the site, and the HTTP GET requests of [uriopen];
    oldest first. *)
Inductive request :=
  | GetPages (chapter_uri : string)
  | GetImageUri (page_uri : string)
  | HttpGet (url : string).

(** What is written to [sys.stdout]: a text, or a line of the progress
    bar, recorded as its two numbers and the flag of the trailing
    newline. *)
Inductive output :=
  | Text (s : string)
  | Bar (page total : nat) (newline : bool).

(** ** [uriopen] *)

(** What [requests.get] gives back: a response, whatever its status, or
    an exception of the transport. *)
Record Response := mkResponse { status_code : Z; content : bytes }.

Inductive http_result :=
  | Responded (r : Response)
  | TransportError (msg : string).

Section Uriopen.
Variable requests_get : string -> http_result.

(** [return requests.get(url).content] *)
Definition uriopen (url : string) (net : list request) : py bytes * list request :=
  match requests_get url with
  | Responded r => (Ret (content r), net ++ [HttpGet url])
  | TransportError m => (Raise (RequestException m), net ++ [HttpGet url])
  end.
End Uriopen.

(** ** [progress] *)

(** [progress(page, total)]: the bar is computed from [page / total]
    inside a [try] that turns every error into [MangaException]; with
    integer arguments the only error is the division by zero.  Nothing
    is written when it raises. *)
Definition progress (page total : nat) (out : list output) : py unit * list output :=
  match total with
  | O => (Raise (MangaException "Unknown error"), out)
  | S _ => (Ret tt, out ++ [Bar page total (page =? total)%nat])
  end.

(** ** The file system *)

(** A file holds raw bytes or a ZIP archive: its members in the order
    they were written, and whether the archive has been closed (its
    central directory written). *)
Inductive file_content :=
  | Raw (b : bytes)
  | Zip (closed : bool) (members : list (string * bytes)).

Inductive node :=
  | Dir
  | File (c : file_content).

(** Paths are the strings the program passes to [os]; the store is keyed
    by them. *)
Abbreviation filesystem := (gmap string node).

Definition isdir (fs : filesystem) (p : string) : bool :=
  match fs !! p with Some Dir => true | _ => false end.

Definition isfile (fs : filesystem) (p : string) : bool :=
  match fs !! p with Some (File _) => true | _ => false end.

Definition starts_with_slash (s : string) : bool :=
  match s with String c _ => Ascii.eqb c "/"%char | EmptyString => false end.

Fixpoint ends_with_slash (s : string) : bool :=
  match s with
  | EmptyString => false
  | String c EmptyString => Ascii.eqb c "/"%char
  | String _ s' => ends_with_slash s'
  end.

(** [os.path.join(a, b)] of [posixpath]. *)
Definition path_join (a b : string) : string :=
  if starts_with_slash b then b
  else if truthy a && negb (ends_with_slash a) then a +:+ "/" +:+ b
  else a +:+ b.

Section Os.
(** Paths at which the operating system refuses to create an entry
    (permissions, a read-only medium, a missing parent). *)
Variable denied : string -> bool.

(** [os.makedirs(path)]: fails on the empty path, on a path that
    exists and where creation is refused. *)
Definition makedirs (fs : filesystem) (p : string) : py filesystem :=
  match p with
  | EmptyString => Raise (OSError "No such file or directory")
  | _ =>
      match fs !! p with
      | Some _ => Raise (OSError "File exists")
      | None =>
          if denied p then Raise (OSError "Permission denied")
          else Ret (<[p := Dir]> fs)
      end
  end.

(** [ZipFile(p, mode='w', compression=ZIP_DEFLATED)]: the file is
    created, or truncated, when the archive is opened. *)
Definition zip_open (fs : filesystem) (p : string) : py filesystem :=
  match fs !! p with
  | Some Dir => Raise (IOError "Is a directory")
  | _ =>
      if denied p then Raise (IOError "Permission denied")
      else Ret (<[p := File (Zip false [])]> fs)
  end.
End Os.

(** [cbz.writestr(name, image)] on the archive opened at [p] whose
    [filelist] is [members]: a member is appended, also when its name is
    already there. *)
Definition zip_writestr (fs : filesystem) (p : string)
    (members : list (string * bytes)) (name : string) (image : bytes)
  : filesystem * list (string * bytes) :=
  let members' := members ++ [(name, image)] in
  (<[p := File (Zip false members')]> fs, members').

(** [cbz.close()] *)
Definition zip_close (fs : filesystem) (p : string)
    (members : list (string * bytes)) : filesystem :=
  <[p := File (Zip true members)]> fs.

(** [os.remove(p)] *)
Definition os_remove (fs : filesystem) (p : string) : py filesystem :=
  match fs !! p with
  | Some (File _) => Ret (delete p fs)
  | _ => Raise (OSError "No such file")
  end.

(** [os.rename(src, dst)]: replaces a file at [dst], fails on a
    directory there. *)
Definition os_rename (fs : filesystem) (src dst : string) : py filesystem :=
  match fs !! src with
  | None => Raise (OSError "No such file or directory")
  | Some n =>
      match fs !! dst with
      | Some Dir => Raise (OSError "Is a directory")
      | _ => Ret (<[dst := n]> (delete src fs))
      end
  end.

(** ** The threads of [GetManga.get] *)

(** What a worker puts on the queue: [(name, image)] after a fetch, or
    [(None, msg)] after a [MangaException]. *)
Inductive qitem :=
  | Fetched (name : string) (image : bytes)
  | Failed (msg : string).

(** A worker thread, from [Thread(...)] to its end: created, started and
    waiting in [semaphore.acquire()], fetching with a permit, about to
    run the [finally] clause, terminated. *)
Inductive wstate := WNew | WAcquire | WFetch | WRelease | WDone.

(** The main thread: in the loop that starts the threads, at
    [thread.join()] or at [queue.get()] of the [i]-th round of the
    collecting loop, or out of [get] with its result. *)
Inductive mstate :=
  | MSpawn (i : nat)
  | MJoin (i : nat)
  | MGet (i : nat)
  | MDone (r : py unit).

Record state := mkState
  { st_fs : filesystem;
    st_out : list output;
    st_net : list request;
    st_tmp : string;                        (* cbz_tmp *)
    st_file : string;                       (* cbz_file *)
    st_workers : list (Page * wstate);      (* threads, one per page *)
    st_sem : nat;                           (* free permits of the semaphore *)
    st_queue : list qitem;                  (* queue, oldest first *)
    st_qlog : list qitem;                   (* every item ever put, oldest first *)
    st_filelist : list (string * bytes);    (* cbz.filelist *)
    st_main : mstate }.

Definition set_main (m : mstate) (s : state) : state :=
  mkState (st_fs s) (st_out s) (st_net s) (st_tmp s) (st_file s) (st_workers s)
          (st_sem s) (st_queue s) (st_qlog s) (st_filelist s) m.

Definition set_wstate (w : wstate) (pw : Page * wstate) : Page * wstate := (pw.1, w).

Definition set_worker (i : nat) (w : wstate) (s : state) : state :=
  mkState (st_fs s) (st_out s) (st_net s) (st_tmp s) (st_file s)
          (alter (set_wstate w) i (st_workers s))
          (st_sem s) (st_queue s) (st_qlog s) (st_filelist s) (st_main s).

Definition set_sem (n : nat) (s : state) : state :=
  mkState (st_fs s) (st_out s) (st_net s) (st_tmp s) (st_file s) (st_workers s)
          n (st_queue s) (st_qlog s) (st_filelist s) (st_main s).

Definition set_net (net : list request) (s : state) : state :=
  mkState (st_fs s) (st_out s) net (st_tmp s) (st_file s) (st_workers s)
          (st_sem s) (st_queue s) (st_qlog s) (st_filelist s) (st_main s).

(** [queue.put(item)] *)
Definition queue_put (item : qitem) (s : state) : state :=
  mkState (st_fs s) (st_out s) (st_net s) (st_tmp s) (st_file s) (st_workers s)
          (st_sem s) (st_queue s ++ [item]) (st_qlog s ++ [item])
          (st_filelist s) (st_main s).

Definition set_queue (q : list qitem) (s : state) : state :=
  mkState (st_fs s) (st_out s) (st_net s) (st_tmp s) (st_file s) (st_workers s)
          (st_sem s) q (st_qlog s) (st_filelist s) (st_main s).

Definition set_disk (fs : filesystem) (fl : list (string * bytes))
    (out : list output) (s : state) : state :=
  mkState fs out (st_net s) (st_tmp s) (st_file s) (st_workers s)
          (st_sem s) (st_queue s) (st_qlog s) fl (st_main s).

Inductive actor := Main | Worker (i : nat).

Section Threads.
(** The adapter's [get_image_uri] and the transport under [uriopen]. *)
Variable get_image_uri : string -> py string.
Variable requests_get : string -> http_result.

(** The body of [_get_image] between [acquire] and the [finally]
    clause: the item it puts on the queue, if it puts one.  An
    exception that is not a [MangaException] leaves the [try]
    statement, and the thread, with nothing put. *)
Definition get_image (page : Page) (net : list request)
  : option qitem * list request :=
  let net1 := net ++ [GetImageUri (pg_uri page)] in
  match get_image_uri (pg_uri page) with
  | Raise (MangaException msg) => (Some (Failed msg), net1)
  | Raise _ => (None, net1)
  | Ret uri =>
      let name := member_name page uri in
      match uriopen requests_get uri net1 with
      | (Ret image, net2) => (Some (Fetched name image), net2)
      | (Raise (MangaException msg), net2) => (Some (Failed msg), net2)
      | (Raise _, net2) => (None, net2)
      end
  end.

Definition step_worker (i : nat) (s : state) : option state :=
  match st_workers s !! i with
  | Some (page, WAcquire) =>
      match st_sem s with
      | O => None
      | S n => Some (set_worker i WFetch (set_sem n s))
      end
  | Some (page, WFetch) =>
      let '(item, net) := get_image page (st_net s) in
      let s1 := set_worker i WRelease (set_net net s) in
      Some (match item with Some it => queue_put it s1 | None => s1 end)
  | Some (page, WRelease) =>
      Some (set_worker i WDone (set_sem (S (st_sem s)) s))
  | _ => None
  end.

(** The [except Exception as msg] clause of [get]. *)
Definition get_except (msg : string) (s : state) : state :=
  let fs1 := zip_close (st_fs s) (st_tmp s) (st_filelist s) in
  match os_remove fs1 (st_tmp s) with
  | Ret fs2 =>
      set_main (MDone (Raise (MangaException msg)))
               (set_disk fs2 (st_filelist s) (st_out s) s)
  | Raise e =>
      set_main (MDone (Raise e)) (set_disk fs1 (st_filelist s) (st_out s) s)
  end.

(** The [else] clause of [get]. *)
Definition get_else (s : state) : state :=
  let fs1 := zip_close (st_fs s) (st_tmp s) (st_filelist s) in
  match os_rename fs1 (st_tmp s) (st_file s) with
  | Ret fs2 =>
      set_main (MDone (Ret tt)) (set_disk fs2 (st_filelist s) (st_out s) s)
  | Raise e =>
      set_main (MDone (Raise e)) (set_disk fs1 (st_filelist s) (st_out s) s)
  end.

Definition step_main (s : state) : option state :=
  match st_main s with
  | MSpawn i =>
      match st_workers s !! i with
      | Some _ => Some (set_main (MSpawn (S i)) (set_worker i WAcquire s))
      | None => Some (set_main (MJoin 0) s)
      end
  | MJoin i =>
      match st_workers s !! i with
      | Some (_, WDone) => Some (set_main (MGet i) s)
      | Some _ => None
      | None => Some (get_else s)
      end
  | MGet i =>
      match st_queue s with
      | [] => None
      | Fetched name image :: q =>
          let s1 := set_queue q s in
          if truthy name then
            let '(fs1, fl1) :=
              zip_writestr (st_fs s1) (st_tmp s1) (st_filelist s1) name image in
            match progress (length fl1) (length (st_workers s1)) (st_out s1) with
            | (Ret _, out1) => Some (set_main (MJoin (S i)) (set_disk fs1 fl1 out1 s1))
            | (Raise e, out1) => Some (get_except (str_exn e) (set_disk fs1 fl1 out1 s1))
            end
          else Some (get_except (string_of_list_byte image) s1)
      | Failed msg :: q => Some (get_except msg (set_queue q s))
      end
  | MDone _ => None
  end.

Definition step (a : actor) (s : state) : option state :=
  match a with
  | Main => step_main s
  | Worker i => step_worker i s
  end.

(** A schedule names the thread that takes each step; [exec] follows
    it, and fails when the thread named cannot move. *)
Fixpoint exec (sched : list actor) (s : state) : option state :=
  match sched with
  | [] => Some s
  | a :: rest =>
      match step a s with
      | Some s' => exec rest s'
      | None => None
      end
  end.
End Threads.

(** ** [GetManga.get] *)

(** The fields [__init__] sets, apart from the adapter. *)
Record GetManga := mkGetManga
  { concurrency : nat; path : string; title : string }.

(** [GetManga.__init__]: [self.concurrency = 4], [self.path = '.']. *)
Definition GetManga_init (title : string) : GetManga := mkGetManga 4 "." title.

(** What [get] acts on outside its own variables. *)
Record world := mkWorld
  { w_fs : filesystem; w_out : list output; w_net : list request }.

Definition world_of (s : state) : world :=
  mkWorld (st_fs s) (st_out s) (st_net s).

(** [get] up to the first thread: either it is over, or the threads are
    about to be started. *)
Inductive started :=
  | Finished (w : world) (r : py unit)
  | Running (s : state).

Definition newline : string := String (ascii_of_nat 10) EmptyString.

Section Get.
Variable expanduser : string -> string.
Variable denied : string -> bool.
(** The adapter and the transport. *)
Variable get_pages : string -> py (list Page).
Variable get_image_uri : string -> py string.
Variable requests_get : string -> http_result.

Definition cbz_file_of (g : GetManga) (chapter : Chapter) : string :=
  path_join (expanduser (path g)) (ch_name chapter +:+ extsep +:+ "cbz").

Definition cbz_tmp_of (g : GetManga) (chapter : Chapter) : string :=
  cbz_file_of g chapter +:+ ".tmp".

(** The output directory is created when it is missing. *)
Definition get_dir (g : GetManga) (fs : filesystem) : py filesystem :=
  let dir := expanduser (path g) in
  if isdir fs dir then Ret fs else makedirs denied fs dir.

(** [get] from its first line to the creation of the semaphore and of
    the queue. *)
Definition get_begin (g : GetManga) (chapter : Chapter) (w : world) : started :=
  let dir := expanduser (path g) in
  match get_dir g (w_fs w) with
  | Raise e => Finished w (Raise (MangaException (str_exn e)))
  | Ret fs1 =>
      let cbz_name := ch_name chapter +:+ extsep +:+ "cbz" in
      let cbz_file := path_join dir cbz_name in
      if isfile fs1 cbz_file then
        Finished (mkWorld fs1
                    (w_out w ++ [Text ("file " +:+ cbz_name +:+ " exist, skipped download" +:+ newline)])
                    (w_net w))
                 (Ret tt)
      else
        let cbz_tmp := cbz_file +:+ ".tmp" in
        match zip_open denied fs1 cbz_tmp with
        | Raise e => Finished (mkWorld fs1 (w_out w) (w_net w))
                              (Raise (MangaException (str_exn e)))
        | Ret fs2 =>
            let out1 := w_out w ++
              [Text ("downloading " +:+ title g +:+ " " +:+ ch_number chapter +:+ ":" +:+ newline)] in
            let net1 := w_net w ++ [GetPages (ch_uri chapter)] in
            match get_pages (ch_uri chapter) with
            | Raise e => Finished (mkWorld fs2 out1 net1) (Raise e)
            | Ret pages =>
                match progress 0 (length pages) out1 with
                | (Raise e, out2) => Finished (mkWorld fs2 out2 net1) (Raise e)
                | (Ret _, out2) =>
                    Running (mkState fs2 out2 net1 cbz_tmp cbz_file
                               (map (fun p => (p, WNew)) pages)
                               (concurrency g) [] [] [] (MSpawn 0))
                end
            end
        end
  end.

(** [get] under a schedule of its threads: the world it leaves and
    what it returns or raises; nothing when the schedule does not
    bring the main thread to the end of [get]. *)
Definition get (g : GetManga) (chapter : Chapter) (w : world)
    (sched : list actor) : option (world * py unit) :=
  match get_begin g chapter w with
  | Finished w' r => Some (w', r)
  | Running s0 =>
      match exec get_image_uri requests_get sched s0 with
      | Some s =>
          match st_main s with
          | MDone r => Some (world_of s, r)
          | _ => None
          end
      | None => None
      end
  end.
End Get.

(** ** The site adapters: titles and addresses *)

(** Strings are taken as Python 2 takes them, byte by byte: [lower]
    acts on the letters [A] to [Z] only, and a regular expression class
    sees one character at a time. *)
Definition in_range (lo hi : nat) (c : ascii) : bool :=
  (lo <=? nat_of_ascii c)%nat && (nat_of_ascii c <=? hi)%nat.

(** [[a-z0-9]] *)
Definition is_alnum (c : ascii) : bool := in_range 97 122 c || in_range 48 57 c.

Definition lower_char (c : ascii) : ascii :=
  if in_range 65 90 c then ascii_of_nat (nat_of_ascii c + 32) else c.

Fixpoint map_string (f : ascii -> ascii) (s : string) : string :=
  match s with
  | EmptyString => EmptyString
  | String c s' => String (f c) (map_string f s')
  end.

Fixpoint filter_string (keep : ascii -> bool) (s : string) : string :=
  match s with
  | EmptyString => EmptyString
  | String c s' => if keep c then String c (filter_string keep s') else filter_string keep s'
  end.

(** [s.lower()] *)
Definition lower (s : string) : string := map_string lower_char s.

(** [re.sub('^[^K]+', '', s)], for the class [K] of the characters
    [keep] accepts: the leading run outside the class is removed. *)
Fixpoint strip_head (keep : ascii -> bool) (s : string) : string :=
  match s with
  | EmptyString => EmptyString
  | String c s' => if keep c then s else strip_head keep s'
  end.

(** [re.sub('[^K]+$', '', s)]: the trailing run outside the class is
    removed. *)
Fixpoint strip_tail (keep : ascii -> bool) (s : string) : string :=
  match s with
  | EmptyString => EmptyString
  | String c s' =>
      match strip_tail keep s' with
      | EmptyString => if keep c then String c EmptyString else EmptyString
      | r => String c r
      end
  end.

(** [re.sub('[^K]+', rep, s)]: every maximal run of characters outside
    the class becomes one [rep]; [in_run] tells that the character
    before was outside the class. *)
Fixpoint sub_runs (keep : ascii -> bool) (rep : ascii) (in_run : bool) (s : string)
  : string :=
  match s with
  | EmptyString => EmptyString
  | String c s' =>
      if keep c then String c (sub_runs keep rep false s')
      else if in_run then sub_runs keep rep true s'
      else String rep (sub_runs keep rep true s')
  end.

(** [MangaSite.title]:
    [re.sub(r'[^a-z0-9]+', '_', re.sub(r'^[^a-z0-9]+|[^a-z0-9]+$', '', title))]
    with [title = self.input_title.lower()]. *)
Definition site_title (input_title : string) : string :=
  let title := lower input_title in
  sub_runs is_alnum "_"%char false (strip_tail is_alnum (strip_head is_alnum title)).

(** [MangaAnimea.title]: [re.sub(r'[^a-z0-9_]+', '-', self.input_title.lower())]. *)
Definition animea_keep (c : ascii) : bool := is_alnum c || Ascii.eqb c "_"%char.

Definition animea_title (input_title : string) : string :=
  sub_runs animea_keep "-"%char false (lower input_title).

(** [MangaReader.title]:
    [re.sub(r'[^\-a-z0-9]', '', re.sub(r'[ _]', '-', self.input_title.lower()))]. *)
Definition reader_dash (c : ascii) : ascii :=
  if Ascii.eqb c " "%char || Ascii.eqb c "_"%char then "-"%char else c.

Definition reader_keep (c : ascii) : bool := Ascii.eqb c "-"%char || is_alnum c.

Definition reader_title (input_title : string) : string :=
  filter_string reader_keep (map_string reader_dash (lower input_title)).

(** [s.find(c)] for a character: the index of its first occurrence, or
    [-1]. *)
Fixpoint py_find (c : ascii) (s : string) : Z :=
  match s with
  | EmptyString => (-1)%Z
  | String a s' =>
      if Ascii.eqb a c then 0%Z
      else match py_find c s' with
           | Zneg _ => (-1)%Z
           | i => (i + 1)%Z
           end
  end.

Fixpoint take_string (n : nat) (s : string) : string :=
  match n, s with
  | S n', String c s' => String c (take_string n' s')
  | _, _ => EmptyString
  end.

(** [s[:i]]: a negative [i] counts from the end. *)
Definition py_slice_to (s : string) (i : Z) : string :=
  let n := Z.of_nat (String.length s) in
  let j := if (i <? 0)%Z then Z.max 0 (i + n) else i in
  take_string (Z.to_nat j) s.

(** The last line of [MangaSite.get_image_uri], on the [src] attribute
    of the image: [return src_url[:src_url.find('?')]]. *)
Definition image_uri_of_src (src_url : string) : string :=
  py_slice_to src_url (py_find "?"%char src_url).

(** [s.lstrip(c)] for a one character argument. *)
Fixpoint lstrip_char (c : ascii) (s : string) : string :=
  match s with
  | EmptyString => EmptyString
  | String a s' => if Ascii.eqb a c then lstrip_char c s' else s
  end.

(** [MangaFox._get_chapter_number] and [MangaHere._get_chapter_number],
    on the [href] of the anchor:
    [num = href.split('/')[-2].lstrip('c').lstrip('0')] and
    [return num if num else 0].  The number [0] is written as the
    string [str] makes of it. *)
Definition fox_chapter_number (href : string) : py string :=
  match py_index (split "/"%char href) (-2) with
  | Raise e => Raise e
  | Ret field =>
      let num := lstrip_char "0"%char (lstrip_char "c"%char field) in
      Ret (if truthy num then num else "0")
  end.






(** * Properties *)

(** ** Sequences and strings *)

Lemma py_index_last {A} (l : list A) :
  py_index l (-1) = match last l with Some x => Ret x | None => Raise IndexError end.
Proof.
  unfold py_index. rewrite last_lookup.
  destruct l as [|x l]; [reflexivity|].
  cbn [length Nat.pred].
  replace (-1 <? 0)%Z with true by reflexivity.
  assert (Hj : (-1 + Z.of_nat (S (length l)) = Z.of_nat (length l))%Z) by lia.
  rewrite Hj.
  destruct (Z.ltb_spec (Z.of_nat (length l)) 0); [lia|].
  destruct (Z.leb_spec (Z.of_nat (S (length l))) (Z.of_nat (length l))); [lia|].
  cbn [orb]. rewrite Nat2Z.id. reflexivity.
Qed.

Lemma split_nonempty c s : split c s <> [].
Proof.
  destruct s as [|a s]; cbn; [discriminate|].
  destruct (Ascii.eqb a c); [discriminate|].
  destruct (split c s); discriminate.
Qed.

(** The last field of a split holds no separator. *)
Lemma contains_last_split c s :
  contains c (List.last (split c s) EmptyString) = false.
Proof.
  induction s as [|a s IH]; [reflexivity|].
  cbn [split]. destruct (Ascii.eqb a c) eqn:Hac.
  - pose proof (split_nonempty c s) as Hne.
    destruct (split c s) as [|w ws]; [congruence|]. exact IH.
  - pose proof (split_nonempty c s) as Hne.
    destruct (split c s) as [|w ws]; [congruence|].
    destruct ws as [|w' ws].
    + cbn in *. rewrite Hac, IH. reflexivity.
    + exact IH.
Qed.

Lemma contains_extension uri : contains dot (extension uri) = false.
Proof. apply contains_last_split. Qed.

Lemma contains_app c s t :
  contains c (s +:+ t) = contains c s || contains c t.
Proof.
  induction s as [|a s IH]; [reflexivity|].
  change (String a s +:+ t) with (String a (s +:+ t)).
  cbn [contains]. rewrite IH. apply orb_assoc.
Qed.

Lemma contains_cons_dot s t : contains dot (s +:+ String dot t) = true.
Proof.
  rewrite contains_app. cbn. apply orb_true_r.
Qed.

(** A name is split in one way only at its last dot. *)
Lemma dotted_inj (a b e f : string) :
  contains dot e = false -> contains dot f = false ->
  a +:+ extsep +:+ e = b +:+ extsep +:+ f -> a = b /\ e = f.
Proof.
  change (extsep +:+ e) with (String dot e).
  change (extsep +:+ f) with (String dot f).
  intros He Hf. revert b.
  induction a as [|x a IH]; intros [|y b] Heq.
  - change (String dot e = String dot f) in Heq. injection Heq as ->. auto.
  - change (String dot e = String y (b +:+ String dot f)) in Heq.
    injection Heq as _ ->. rewrite contains_cons_dot in He. discriminate.
  - change (String x (a +:+ String dot e) = String dot f) in Heq.
    injection Heq as _ <-. rewrite contains_cons_dot in Hf. discriminate.
  - change (String x (a +:+ String dot e) = String y (b +:+ String dot f)) in Heq.
    injection Heq as -> Heq. destruct (IH _ Heq) as [-> ->]. auto.
Qed.

Lemma member_name_inj p q u v :
  member_name p u = member_name q v -> pg_name p = pg_name q.
Proof.
  unfold member_name. intros H.
  apply dotted_inj in H; [tauto| |]; apply contains_extension.
Qed.

Lemma member_name_truthy p u : truthy (member_name p u) = true.
Proof.
  unfold member_name. destruct (pg_name p); reflexivity.
Qed.

(** ** [latest] *)

(** C10: [latest] is the last element of the chapters list, and raises
    [IndexError] when the list is empty; with a site that lists its
    chapters newest first, that is the first valid anchor of the page. *)
Theorem latest_is_last_chapter :
  (forall cs : list Chapter,
     latest (Ret cs) =
     match last cs with Some c => Ret c | None => Raise IndexError end) /\
  latest (Ret []) = Raise IndexError /\
  (forall cs c, latest (Ret (cs ++ [c])) = Ret c) /\
  (forall e, latest (Raise e) = Raise e) /\
  (forall valid mk anchors,
     latest (Ret (chapters_of true valid mk anchors)) =
     match head (filter (fun a => valid (a_href a) = true) anchors) with
     | Some a => Ret (mk a)
     | None => Raise IndexError
     end).
Proof.
  split; [|split; [|split; [|split]]].
  - intros cs. apply py_index_last.
  - reflexivity.
  - intros cs c. cbn [latest]. rewrite py_index_last, last_snoc. reflexivity.
  - reflexivity.
  - intros valid mk anchors. cbn [latest]. rewrite py_index_last.
    unfold chapters_of.
    rewrite filter_reverse, fmap_reverse, last_reverse.
    destruct (filter _ anchors); reflexivity.
Qed.

(** ** [uriopen] *)

Definition success_status (r : Response) : bool :=
  ((200 <=? status_code r) && (status_code r <? 300))%Z.

Definition raises_manga {A} (r : py A) : bool :=
  match r with Raise e => is_manga_exception e | Ret _ => false end.

Definition returns {A} (r : py A) : bool :=
  match r with Ret _ => true | Raise _ => false end.

(** C6, as stated, fails: the body of a 404 response is returned as if
    the request had succeeded. *)
Lemma uriopen_returns_error_page :
  exists (requests_get : string -> http_result) (url : string) (r : Response),
    requests_get url = Responded r /\
    success_status r = false /\
    (uriopen requests_get url []).1 = Ret (content r).
Proof.
  exists (fun _ => Responded (mkResponse 404 [Byte.x34; Byte.x30; Byte.x34])),
         "http://example.org/1.jpg", (mkResponse 404 [Byte.x34; Byte.x30; Byte.x34]).
  repeat split.
Qed.

(** C6, amended: [uriopen] sends exactly one GET; it returns the body of
    whatever response comes back, with no look at the status, and lets
    the exception of the transport through, which is never a
    [MangaException]. *)
Theorem uriopen_one_get_any_status :
  forall (requests_get : string -> http_result) (url : string) (net : list request),
    (uriopen requests_get url net).2 = net ++ [HttpGet url] /\
    (uriopen requests_get url net).1 =
      match requests_get url with
      | Responded r => Ret (content r)
      | TransportError m => Raise (RequestException m)
      end /\
    returns (uriopen requests_get url net).1 =
      match requests_get url with Responded _ => true | TransportError _ => false end /\
    raises_manga (uriopen requests_get url net).1 = false.
Proof.
  intros rg url net. unfold uriopen.
  destruct (rg url); repeat split.
Qed.

(** ** The file system *)

Lemma length_append (s t : string) :
  String.length (s +:+ t) = String.length s + String.length t.
Proof.
  induction s as [|a s IH]; [reflexivity|].
  change (String a s +:+ t) with (String a (s +:+ t)).
  cbn [String.length]. rewrite IH. reflexivity.
Qed.

Lemma append_tmp_ne (s : string) : s +:+ ".tmp" <> s.
Proof.
  intros H. apply (f_equal String.length) in H.
  rewrite length_append in H. cbn in H. lia.
Qed.

Lemma isfile_insert_ne fs p q n :
  p <> q -> isfile (<[p := n]> fs) q = isfile fs q.
Proof. intros H. unfold isfile. rewrite lookup_insert_ne; done. Qed.

Lemma isfile_delete_ne (fs : filesystem) p q :
  p <> q -> isfile (delete p fs) q = isfile fs q.
Proof. intros H. unfold isfile. rewrite lookup_delete_ne; done. Qed.

Lemma zip_open_Ret denied fs p fs' :
  zip_open denied fs p = Ret fs' -> fs' = <[p := File (Zip false [])]> fs.
Proof.
  unfold zip_open. intros H.
  destruct (fs !! p) as [[|c]|]; destruct (denied p); congruence.
Qed.

Lemma makedirs_Ret denied fs p fs' :
  makedirs denied fs p = Ret fs' -> fs !! p = None /\ fs' = <[p := Dir]> fs.
Proof.
  unfold makedirs. intros H.
  destruct p; [discriminate|].
  destruct (fs !! _); [discriminate|].
  destruct (denied _); [discriminate|].
  injection H as <-. auto.
Qed.

Lemma isfile_makedirs denied fs p fs' q :
  makedirs denied fs p = Ret fs' -> isfile fs' q = isfile fs q.
Proof.
  intros [Hnone ->]%makedirs_Ret. unfold isfile.
  destruct (decide (p = q)) as [<-|Hne].
  - rewrite lookup_insert_eq, Hnone. reflexivity.
  - rewrite lookup_insert_ne; done.
Qed.

Lemma lookup_makedirs_file denied fs p fs' q c :
  makedirs denied fs p = Ret fs' -> fs !! q = Some (File c) -> fs' !! q = fs !! q.
Proof.
  intros [Hnone ->]%makedirs_Ret Hq.
  rewrite lookup_insert_ne; [done|]. intros <-. congruence.
Qed.

(** ** [get] before its threads *)

Section GetFacts.
Variable expanduser : string -> string.
Variable denied : string -> bool.
Variable get_pages : string -> py (list Page).
Variable get_image_uri : string -> py string.
Variable requests_get : string -> http_result.

Local Abbreviation get' := (get expanduser denied get_pages get_image_uri requests_get).
Local Abbreviation file_of := (cbz_file_of expanduser).
Local Abbreviation tmp_of := (cbz_tmp_of expanduser).

Lemma get_no_pages g chapter w fs1 fs2 sched :
  get_dir expanduser denied g (w_fs w) = Ret fs1 ->
  isfile fs1 (file_of g chapter) = false ->
  zip_open denied fs1 (tmp_of g chapter) = Ret fs2 ->
  get_pages (ch_uri chapter) = Ret [] ->
  exists w',
    get' g chapter w sched = Some (w', Raise (MangaException "Unknown error")) /\
    (progress 0 (length (@nil Page)) (w_out w')).1 =
      Raise (MangaException "Unknown error") /\
    w_fs w' !! tmp_of g chapter = Some (File (Zip false [])) /\
    isfile (w_fs w') (tmp_of g chapter) = true /\
    isfile (w_fs w') (file_of g chapter) = false /\
    w_net w' = w_net w ++ [GetPages (ch_uri chapter)].
Proof.
  intros Hdir Hfile Hopen Hpages.
  unfold get, get_begin. rewrite Hdir.
  fold (file_of g chapter). rewrite Hfile.
  fold (tmp_of g chapter). rewrite Hopen, Hpages. cbn.
  apply zip_open_Ret in Hopen. subst fs2.
  eexists. split; [reflexivity|]. cbn.
  split; [reflexivity|]. split; [apply lookup_insert_eq|].
  split; [unfold isfile; rewrite lookup_insert_eq; reflexivity|].
  split; [|reflexivity].
  rewrite isfile_insert_ne; [exact Hfile|]. apply append_tmp_ne.
Qed.

(** C9: with an empty page list [get] raises the [MangaException] of
    [progress(0, 0)], after the temporary archive was created, and
    leaves it on disk. *)
Theorem get_empty_chapter_leaves_tmp g chapter w fs1 fs2 sched :
  get_dir expanduser denied g (w_fs w) = Ret fs1 ->
  isfile fs1 (file_of g chapter) = false ->
  zip_open denied fs1 (tmp_of g chapter) = Ret fs2 ->
  get_pages (ch_uri chapter) = Ret [] ->
  exists w',
    get' g chapter w sched = Some (w', Raise (MangaException "Unknown error")) /\
    (progress 0 (length (@nil Page)) (w_out w')).1 =
      Raise (MangaException "Unknown error") /\
    w_fs w' !! tmp_of g chapter = Some (File (Zip false [])) /\
    isfile (w_fs w') (tmp_of g chapter) = true /\
    isfile (w_fs w') (file_of g chapter) = false /\
    w_net w' = w_net w ++ [GetPages (ch_uri chapter)].
Proof. apply get_no_pages. Qed.

(** C7, amended: an error of [progress] is fatal.  [progress] raises
    exactly when the total is zero, and when the call before the
    threads raises, [get] raises the same [MangaException], no archive
    is put at the final path and the temporary file stays. *)
Theorem progress_error_is_fatal g chapter w fs1 fs2 pages sched :
  get_dir expanduser denied g (w_fs w) = Ret fs1 ->
  isfile fs1 (file_of g chapter) = false ->
  zip_open denied fs1 (tmp_of g chapter) = Ret fs2 ->
  get_pages (ch_uri chapter) = Ret pages ->
  returns (progress 0 (length pages) []).1 = false ->
  pages = [] /\
  exists w' msg,
    get' g chapter w sched = Some (w', Raise (MangaException msg)) /\
    (progress 0 (length pages) (w_out w')).1 = Raise (MangaException msg) /\
    isfile (w_fs w') (file_of g chapter) = false /\
    isfile (w_fs w') (tmp_of g chapter) = true.
Proof.
  intros Hdir Hfile Hopen Hpages Hraise.
  assert (pages = []) as ->.
  { destruct pages; [reflexivity|]. cbn in Hraise. discriminate. }
  split; [reflexivity|].
  destruct (get_no_pages g chapter w fs1 fs2 sched)
    as (w' & Hget & Hprog & _ & Htmp & Hfinal & _); try assumption.
  exists w', "Unknown error". auto.
Qed.

(** C5, amended: when a file is at the final path, [get] asks for
    nothing on the network, creates no temporary file and leaves the
    file as it is; it returns, unless the output directory is missing
    and cannot be created, in which case it raises [MangaException]
    before it looks for the file. *)
Theorem get_skips_existing_archive g chapter w sched :
  isfile (w_fs w) (file_of g chapter) = true ->
  exists w' r,
    get' g chapter w sched = Some (w', r) /\
    w_net w' = w_net w /\
    w_fs w' !! file_of g chapter = w_fs w !! file_of g chapter /\
    isfile (w_fs w') (tmp_of g chapter) = isfile (w_fs w) (tmp_of g chapter) /\
    r = match get_dir expanduser denied g (w_fs w) with
        | Ret _ => Ret tt
        | Raise e => Raise (MangaException (str_exn e))
        end /\
    (isdir (w_fs w) (expanduser (path g)) = true -> r = Ret tt /\ w_fs w' = w_fs w).
Proof.
  intros Hfile. unfold get, get_begin.
  destruct (get_dir expanduser denied g (w_fs w)) as [fs1|e] eqn:Hdir.
  - assert (Hsame : fs1 !! file_of g chapter = w_fs w !! file_of g chapter /\
                    isfile fs1 (tmp_of g chapter) = isfile (w_fs w) (tmp_of g chapter) /\
                    (isdir (w_fs w) (expanduser (path g)) = true -> fs1 = w_fs w)).
    { unfold get_dir in Hdir.
      destruct (isdir (w_fs w) (expanduser (path g))).
      - injection Hdir as <-. auto.
      - unfold isfile in Hfile.
        destruct (w_fs w !! file_of g chapter) as [[|c]|] eqn:Hlk; try discriminate.
        split; [|split; [|discriminate]].
        + rewrite <- Hlk. eapply lookup_makedirs_file; eassumption.
        + eapply isfile_makedirs; eassumption. }
    destruct Hsame as (Hlk & Htmp & Hid).
    fold (file_of g chapter).
    assert (Hfile1 : isfile fs1 (file_of g chapter) = true)
      by (unfold isfile in *; rewrite Hlk; exact Hfile).
    rewrite Hfile1.
    eexists _, _. split; [reflexivity|]. cbn.
    repeat split; auto.
  - exists w, (Raise (MangaException (str_exn e))).
    split; [reflexivity|]. do 4 (split; [reflexivity|]).
    intros Hd. unfold get_dir in Hdir. rewrite Hd in Hdir. discriminate.
Qed.
End GetFacts.


(** ** The threads: what is counted *)

(** A worker holds a permit of the semaphore from [acquire] to
    [release]: its fetch is in flight. *)
Definition holding (w : wstate) : bool :=
  match w with WFetch | WRelease => true | _ => false end.

Fixpoint holders (ws : list (Page * wstate)) : nat :=
  match ws with
  | [] => 0
  | (_, w) :: rest => (if holding w then 1 else 0) + holders rest
  end.

Definition in_flight (s : state) : nat := holders (st_workers s).

(** A worker is past its [queue.put]. *)
Definition past_put (w : wstate) : bool :=
  match w with WRelease | WDone => true | _ => false end.

Definition option_list {A} (o : option A) : list A :=
  match o with Some x => [x] | None => [] end.

Lemma set_worker_workers i w s :
  st_workers (set_worker i w s) = alter (set_wstate w) i (st_workers s).
Proof. reflexivity. Qed.

Lemma holders_alter (ws : list (Page * wstate)) i p w w' :
  ws !! i = Some (p, w) ->
  holders (alter (set_wstate w') i ws) + (if holding w then 1 else 0) =
  holders ws + (if holding w' then 1 else 0).
Proof.
  revert i. induction ws as [|[q v] ws IH]; intros [|i] H; try discriminate.
  - injection H as -> ->. cbn. lia.
  - cbn in H. apply IH in H.
    change (alter (set_wstate w') (S i) ((q, v) :: ws))
      with ((q, v) :: alter (set_wstate w') i ws).
    cbn [holders]. lia.
Qed.

Lemma lookup_alter_wstate (ws : list (Page * wstate)) (i j : nat) w (p : Page) (v : wstate) :
  alter (set_wstate w) i ws !! j = Some (p, v) ->
  (i = j /\ v = w /\ exists v0, ws !! j = Some (p, v0)) \/
  (i <> j /\ ws !! j = Some (p, v)).
Proof.
  destruct (decide (i = j)) as [<-|Hne].
  - rewrite list_lookup_alter_eq.
    destruct (ws !! i) as [[q v0]|] eqn:Hlk; cbn; [|discriminate].
    intros [= <- <-]. left. eauto.
  - rewrite list_lookup_alter_ne by done. auto.
Qed.

Lemma length_alter_wstate (ws : list (Page * wstate)) i w :
  length (alter (set_wstate w) i ws) = length ws.
Proof. apply length_alter. Qed.

Lemma fst_alter_wstate (ws : list (Page * wstate)) i w :
  (alter (set_wstate w) i ws).*1 = ws.*1.
Proof.
  revert i. induction ws as [|[q v] ws IH]; intros [|i]; cbn; try reflexivity.
  f_equal. apply IH.
Qed.

(** ** The threads: invariants *)

Section ThreadFacts.
Variable get_image_uri : string -> py string.
Variable requests_get : string -> http_result.

Local Abbreviation get_image' := (get_image get_image_uri requests_get).
Local Abbreviation step' := (step get_image_uri requests_get).
Local Abbreviation exec' := (exec get_image_uri requests_get).

(** What the worker of a page puts on the queue; the requests already
    sent have no part in it. *)
Definition page_item (p : Page) : option qitem := (get_image' p []).1.

Lemma get_image_item p net : (get_image' p net).1 = page_item p.
Proof.
  unfold page_item, get_image, uriopen.
  destruct (get_image_uri (pg_uri p)) as [uri|[]]; try reflexivity.
  destruct (requests_get uri); reflexivity.
Qed.

(** The items put so far, worker by worker. *)
Fixpoint emitted (ws : list (Page * wstate)) : list qitem :=
  match ws with
  | [] => []
  | (p, w) :: rest =>
      (if past_put w then option_list (page_item p) else []) ++ emitted rest
  end.

Lemma emitted_alter_same (ws : list (Page * wstate)) i p w w' :
  ws !! i = Some (p, w) -> past_put w = past_put w' ->
  emitted (alter (set_wstate w') i ws) = emitted ws.
Proof.
  revert i. induction ws as [|[q v] ws IH]; intros [|i] H Hpp; try discriminate.
  - injection H as -> ->. cbn. rewrite Hpp. reflexivity.
  - cbn in H.
    change (alter (set_wstate w') (S i) ((q, v) :: ws))
      with ((q, v) :: alter (set_wstate w') i ws).
    cbn [emitted]. erewrite IH; eauto.
Qed.

Lemma emitted_alter_put (ws : list (Page * wstate)) i p w w' :
  ws !! i = Some (p, w) -> past_put w = false -> past_put w' = true ->
  emitted (alter (set_wstate w') i ws) ≡ₚ emitted ws ++ option_list (page_item p).
Proof.
  revert i. induction ws as [|[q v] ws IH]; intros [|i] H Hw Hw'; try discriminate.
  - injection H as -> ->. cbn. rewrite Hw, Hw'. cbn.
    apply Permutation_app_comm.
  - cbn in H.
    change (alter (set_wstate w') (S i) ((q, v) :: ws))
      with ((q, v) :: alter (set_wstate w') i ws).
    cbn [emitted]. rewrite (IH i H Hw Hw'). rewrite (assoc_L (++)). reflexivity.
Qed.

Lemma length_emitted ws : length (emitted ws) <= length ws.
Proof.
  induction ws as [|[q v] ws IH]; [reflexivity|].
  cbn [emitted]. rewrite length_app. cbn [length].
  destruct (past_put v); [destruct (page_item q)|]; cbn; lia.
Qed.

Lemma emitted_all_done (ws : list (Page * wstate)) :
  (forall j p w, ws !! j = Some (p, w) -> w = WDone) ->
  emitted ws = omap page_item ws.*1.
Proof.
  induction ws as [|[q v] ws IH]; intros Hall; [reflexivity|].
  assert (v = WDone) as -> by (apply (Hall 0 q v); reflexivity).
  cbn. rewrite IH.
  - destruct (page_item q); reflexivity.
  - intros j p w H. apply (Hall (S j) p w). exact H.
Qed.

Lemma length_omap_le {A B} (f : A -> option B) (l : list A) :
  length (omap f l) <= length l.
Proof.
  induction l as [|x l IH]; [reflexivity|].
  cbn. destruct (f x); cbn; lia.
Qed.

Lemma length_omap_full {A B} (f : A -> option B) (l : list A) :
  length (omap f l) = length l -> Forall (fun x => is_Some (f x)) l.
Proof.
  induction l as [|x l IH]; intros H; [constructor|].
  cbn in H. pose proof (length_omap_le f l) as Hle.
  destruct (f x) eqn:Hfx; cbn in H.
  - constructor; [rewrite Hfx; eauto|]. apply IH. lia.
  - lia.
Qed.
Definition entry_item (e : string * bytes) : qitem := Fetched e.1 e.2.

(** The archive is open at the temporary path and no file is at the
    final path. *)
Definition disk_open (s : state) : Prop :=
  st_fs s !! st_tmp s = Some (File (Zip false (st_filelist s))) /\
  isfile (st_fs s) (st_file s) = false.

Definition spawned_below (i : nat) (ws : list (Page * wstate)) : Prop :=
  forall j p w, ws !! j = Some (p, w) -> (w = WNew <-> i <= j).

Definition all_started (ws : list (Page * wstate)) : Prop :=
  forall j p w, ws !! j = Some (p, w) -> w <> WNew.

Definition done_below (i : nat) (ws : list (Page * wstate)) : Prop :=
  forall j p w, ws !! j = Some (p, w) -> j < i -> w = WDone.

(** The queue hands out what was put, in the order it was put: the
    items taken so far are the members written. *)
Definition fifo (s : state) : Prop :=
  st_qlog s = map entry_item (st_filelist s) ++ st_queue s.

Definition main_inv (s : state) : Prop :=
  match st_main s with
  | MSpawn i =>
      spawned_below i (st_workers s) /\ st_filelist s = [] /\ fifo s /\ disk_open s
  | MJoin i =>
      all_started (st_workers s) /\ done_below i (st_workers s) /\
      i <= length (st_workers s) /\ length (st_filelist s) = i /\
      fifo s /\ disk_open s
  | MGet i =>
      all_started (st_workers s) /\ done_below (S i) (st_workers s) /\
      i < length (st_workers s) /\ length (st_filelist s) = i /\
      fifo s /\ disk_open s
  | MDone (Raise (MangaException _)) =>
      st_fs s !! st_tmp s = None /\ isfile (st_fs s) (st_file s) = false
  | MDone r =>
      done_below (length (st_workers s)) (st_workers s) /\
      length (st_filelist s) = length (st_workers s) /\
      fifo s /\ st_queue s = [] /\
      match r with
      | Ret _ =>
          st_fs s !! st_file s = Some (File (Zip true (st_filelist s))) /\
          st_fs s !! st_tmp s = None
      | Raise _ =>
          st_fs s !! st_file s = Some Dir /\
          st_fs s !! st_tmp s = Some (File (Zip true (st_filelist s)))
      end
  end.

Definition Inv (c : nat) (pages : list Page) (s : state) : Prop :=
  st_tmp s = st_file s +:+ ".tmp" /\
  (st_workers s).*1 = pages /\
  st_sem s + in_flight s = c /\
  st_qlog s ≡ₚ emitted (st_workers s) /\
  main_inv s.

Lemma spawned_below_alter ws i k p w w' :
  ws !! k = Some (p, w) -> w <> WNew -> w' <> WNew ->
  spawned_below i ws -> spawned_below i (alter (set_wstate w') k ws).
Proof.
  intros Hk Hw Hw' H j q v Hj.
  apply lookup_alter_wstate in Hj as [(<- & -> & v0 & Hj)|[Hne Hj]].
  - rewrite Hk in Hj. injection Hj as <- <-.
    specialize (H k p w Hk). tauto.
  - exact (H j q v Hj).
Qed.

Lemma all_started_alter ws k w' :
  w' <> WNew -> all_started ws -> all_started (alter (set_wstate w') k ws).
Proof.
  intros Hw' H j q v Hj.
  apply lookup_alter_wstate in Hj as [(<- & -> & v0 & Hj)|[Hne Hj]]; eauto.
Qed.

Lemma done_below_alter ws i k p w w' :
  ws !! k = Some (p, w) -> w <> WDone ->
  done_below i ws -> done_below i (alter (set_wstate w') k ws) /\ i <= k.
Proof.
  intros Hk Hw H.
  assert (Hik : i <= k).
  { destruct (decide (i <= k)); [done|]. exfalso. apply Hw, (H k p w Hk). lia. }
  split; [|exact Hik].
  intros j q v Hj Hlt.
  apply lookup_alter_wstate in Hj as [(<- & -> & v0 & Hj)|[Hne Hj]]; [lia|eauto].
Qed.
#[local] Arguments set_wstate : simpl never.

(** A worker that moves changes nothing the main thread relies on. *)
Lemma main_inv_worker s s' k p w w' l :
  st_workers s !! k = Some (p, w) ->
  w <> WNew -> w <> WDone -> w' <> WNew ->
  st_workers s' = alter (set_wstate w') k (st_workers s) ->
  st_main s' = st_main s -> st_fs s' = st_fs s ->
  st_tmp s' = st_tmp s -> st_file s' = st_file s ->
  st_filelist s' = st_filelist s ->
  st_qlog s' = st_qlog s ++ l -> st_queue s' = st_queue s ++ l ->
  main_inv s -> main_inv s'.
Proof.
  intros Hk Hw Hd Hw' Hws Hm Hfs Htmp Hfile Hfl Hqlog Hq.
  unfold main_inv, fifo, disk_open.
  rewrite Hws, Hm, Hfs, Htmp, Hfile, Hfl, Hqlog, Hq, length_alter_wstate.
  assert (Hfifo : st_qlog s = map entry_item (st_filelist s) ++ st_queue s ->
                  st_qlog s ++ l = map entry_item (st_filelist s) ++ st_queue s ++ l).
  { intros ->. symmetry. apply (assoc_L (++)). }
  destruct (st_main s) as [i|i|i|[[]|[]]].
  - intros (Hsp & ? & ? & ? & ?).
    split; [eapply spawned_below_alter; eauto|]. auto.
  - intros (Hst & Hdn & ? & ? & ? & ? & ?).
    destruct (done_below_alter _ i k p w w' Hk Hd Hdn) as [Hdn' _].
    split; [apply all_started_alter; assumption|]. auto 10.
  - intros (Hst & Hdn & ? & ? & ? & ? & ?).
    destruct (done_below_alter _ (S i) k p w w' Hk Hd Hdn) as [Hdn' _].
    split; [apply all_started_alter; assumption|]. auto 10.
  - intros (Hdn & _). exfalso. apply Hd, (Hdn k p w Hk).
    eapply lookup_lt_Some, Hk.
  - auto.
  - intros (Hdn & _). exfalso. apply Hd, (Hdn k p w Hk).
    eapply lookup_lt_Some, Hk.
  - intros (Hdn & _). exfalso. apply Hd, (Hdn k p w Hk).
    eapply lookup_lt_Some, Hk.
  - intros (Hdn & _). exfalso. apply Hd, (Hdn k p w Hk).
    eapply lookup_lt_Some, Hk.
  - intros (Hdn & _). exfalso. apply Hd, (Hdn k p w Hk).
    eapply lookup_lt_Some, Hk.
  - intros (Hdn & _). exfalso. apply Hd, (Hdn k p w Hk).
    eapply lookup_lt_Some, Hk.
Qed.
Lemma Inv_step_worker c pages k s s' :
  Inv c pages s -> step_worker get_image_uri requests_get k s = Some s' ->
  Inv c pages s'.
Proof.
  intros (Htmp & Hpages & Hsem & Hperm & Hmain). unfold step_worker, in_flight in *.
  destruct (st_workers s !! k) as [[p w]|] eqn:Hk; [|discriminate].
  destruct w; try discriminate.
  - (* acquire *)
    destruct (st_sem s) as [|n] eqn:Hn; [discriminate|].
    intros [= <-]. unfold Inv, in_flight. cbn.
    pose proof (holders_alter _ k p WAcquire WFetch Hk) as Hh. cbn in Hh.
    split; [exact Htmp|]. split; [rewrite fst_alter_wstate; exact Hpages|].
    split; [lia|]. split.
    + erewrite emitted_alter_same; eauto.
    + eapply (main_inv_worker s _ k p WAcquire WFetch []); eauto;
        try discriminate; cbn; rewrite ?app_nil_r; reflexivity.
  - (* the fetch and the put *)
    destruct (get_image' p (st_net s)) as [item net] eqn:Hget.
    pose proof (get_image_item p (st_net s)) as Hitem.
    rewrite Hget in Hitem. cbn in Hitem. subst item.
    pose proof (holders_alter _ k p WFetch WRelease Hk) as Hh. cbn in Hh.
    pose proof (emitted_alter_put _ k p WFetch WRelease Hk eq_refl eq_refl) as He.
    intros [= <-]. unfold Inv, in_flight.
    destruct (page_item p) as [it|] eqn:Hit; cbn in *.
    + split; [exact Htmp|]. split; [rewrite fst_alter_wstate; exact Hpages|].
      split; [lia|]. split.
      * rewrite He, Hperm. reflexivity.
      * eapply (main_inv_worker s _ k p WFetch WRelease [it]); eauto;
          try discriminate; reflexivity.
    + split; [exact Htmp|]. split; [rewrite fst_alter_wstate; exact Hpages|].
      split; [lia|]. split.
      * rewrite He, Hperm, app_nil_r. reflexivity.
      * eapply (main_inv_worker s _ k p WFetch WRelease []); eauto;
          try discriminate; cbn; rewrite ?app_nil_r; reflexivity.
  - (* release *)
    intros [= <-]. unfold Inv, in_flight. cbn.
    pose proof (holders_alter _ k p WRelease WDone Hk) as Hh. cbn in Hh.
    split; [exact Htmp|]. split; [rewrite fst_alter_wstate; exact Hpages|].
    split; [lia|]. split.
    + erewrite emitted_alter_same; eauto.
    + eapply (main_inv_worker s _ k p WRelease WDone []); eauto;
        try discriminate; cbn; rewrite ?app_nil_r; reflexivity.
Qed.
Lemma get_except_eq msg s :
  st_fs s !! st_tmp s = Some (File (Zip false (st_filelist s))) ->
  get_except msg s =
  set_main (MDone (Raise (MangaException msg)))
    (set_disk (delete (st_tmp s) (zip_close (st_fs s) (st_tmp s) (st_filelist s)))
              (st_filelist s) (st_out s) s).
Proof.
  intros _. unfold get_except, os_remove, zip_close.
  rewrite lookup_insert_eq. reflexivity.
Qed.

Lemma Inv_get_except c pages msg s :
  st_tmp s = st_file s +:+ ".tmp" ->
  (st_workers s).*1 = pages ->
  st_sem s + in_flight s = c ->
  st_qlog s ≡ₚ emitted (st_workers s) ->
  disk_open s ->
  Inv c pages (get_except msg s).
Proof.
  intros Htmp Hpages Hsem Hperm [Hopen Hfile].
  rewrite get_except_eq by exact Hopen.
  unfold Inv, main_inv, in_flight, zip_close. cbn.
  repeat (split; [assumption|]). split.
  - apply lookup_delete_eq.
  - rewrite isfile_delete_ne, isfile_insert_ne; [exact Hfile| |];
      rewrite Htmp; apply append_tmp_ne.
Qed.

Lemma Inv_get_else c pages s :
  st_tmp s = st_file s +:+ ".tmp" ->
  (st_workers s).*1 = pages ->
  st_sem s + in_flight s = c ->
  st_qlog s ≡ₚ emitted (st_workers s) ->
  done_below (length (st_workers s)) (st_workers s) ->
  length (st_filelist s) = length (st_workers s) ->
  fifo s -> disk_open s ->
  Inv c pages (get_else s).
Proof.
  intros Htmp Hpages Hsem Hperm Hdone Hlen Hfifo [Hopen Hfile].
  assert (Hne : st_tmp s <> st_file s) by (rewrite Htmp; apply append_tmp_ne).
  assert (Hq : st_queue s = []).
  { pose proof (length_emitted (st_workers s)) as Hle.
    apply Permutation_length in Hperm. rewrite Hfifo in Hperm.
    rewrite length_app, length_map in Hperm.
    destruct (st_queue s); [reflexivity|]. cbn in Hperm. lia. }
  unfold get_else, os_rename, zip_close.
  rewrite lookup_insert_eq, lookup_insert_ne by exact Hne.
  unfold isfile in Hfile.
  destruct (st_fs s !! st_file s) as [[|c0]|] eqn:Hlk; try discriminate.
  - unfold Inv, main_inv, in_flight. cbn.
    repeat (split; [assumption|]). split.
    + rewrite lookup_insert_ne by exact Hne. exact Hlk.
    + apply lookup_insert_eq.
  - unfold Inv, main_inv, in_flight, fifo in *. cbn.
    repeat (split; [assumption|]). split.
    + apply lookup_insert_eq.
    + rewrite lookup_insert_ne by (symmetry; exact Hne). apply lookup_delete_eq.
Qed.
Lemma Inv_step_main c pages s s' :
  Inv c pages s -> step_main s = Some s' -> Inv c pages s'.
Proof.
  intros (Htmp & Hpages & Hsem & Hperm & Hmain).
  assert (Hne : st_tmp s <> st_file s) by (rewrite Htmp; apply append_tmp_ne).
  unfold step_main. unfold main_inv in Hmain.
  destruct (st_main s) as [i|i|i|r] eqn:Hm; [| | |discriminate].
  - (* a thread is started *)
    destruct Hmain as (Hsp & Hfl & Hfifo & Hopen).
    destruct (st_workers s !! i) as [[p w]|] eqn:Hi; intros [= <-].
    + assert (w = WNew) as -> by (apply (Hsp i p w Hi); lia).
      pose proof (holders_alter _ i p WNew WAcquire Hi) as Hh. cbn in Hh.
      unfold Inv, main_inv, in_flight, fifo, disk_open in *. cbn.
      split; [exact Htmp|]. split; [rewrite fst_alter_wstate; exact Hpages|].
      split; [lia|]. split; [erewrite emitted_alter_same; eauto|].
      split; [|auto].
      intros j q v Hj.
      apply lookup_alter_wstate in Hj as [(<- & -> & v0 & Hj)|[Hneq Hj]].
      * split; [discriminate|lia].
      * specialize (Hsp j q v Hj). split; [intros Hv; apply Hsp in Hv|intros Hle; apply Hsp]; lia.
    + apply lookup_ge_None in Hi.
      unfold Inv, main_inv, in_flight, fifo, disk_open in *. cbn.
      repeat (split; [assumption|]).
      split; [|split; [|split; [lia|split; [rewrite Hfl; reflexivity|auto]]]].
      * intros j q v Hj Hv. apply (Hsp j q v Hj) in Hv.
        apply lookup_lt_Some in Hj. lia.
      * intros j q v Hj Hlt. lia.
  - (* join *)
    destruct Hmain as (Hst & Hdn & Hle & Hlen & Hfifo & Hopen).
    destruct (st_workers s !! i) as [[p w]|] eqn:Hi.
    + destruct w; try discriminate. intros [= <-].
      unfold Inv, main_inv, in_flight. cbn.
      repeat (split; [assumption|]).
      split; [|split; [eapply lookup_lt_Some, Hi|auto]].
      intros j q v Hj Hlt.
      destruct (decide (j = i)) as [->|Hji]; [congruence|].
      apply (Hdn j q v Hj). lia.
    + intros [= <-]. apply lookup_ge_None in Hi.
      assert (i = length (st_workers s)) as Hi' by lia.
      apply Inv_get_else; auto; rewrite <- Hi'; assumption.
  - (* get *)
    destruct Hmain as (Hst & Hdn & Hlt & Hlen & Hfifo & Hopen).
    destruct (st_queue s) as [|[name image|msg] q] eqn:Hq; [discriminate| |].
    + destruct (truthy name).
      * unfold zip_writestr, progress. cbn.
        destruct (length (st_workers s)) as [|n] eqn:Hn; [lia|].
        intros [= <-].
        destruct Hopen as [Hopen Hfile].
        unfold Inv, main_inv, in_flight, fifo, disk_open in *. cbn.
        repeat (split; [assumption|]).
        split; [lia|]. split; [rewrite length_app; cbn; lia|].
        split; [rewrite Hfifo, Hq, map_app, <- (assoc_L (++)); reflexivity|].
        split; [apply lookup_insert_eq|].
        rewrite isfile_insert_ne; assumption.
      * intros [= <-].
        apply Inv_get_except; auto; unfold disk_open in *; cbn; assumption.
    + intros [= <-].
      apply Inv_get_except; auto; unfold disk_open in *; cbn; assumption.
Qed.

Lemma Inv_step c pages a s s' :
  Inv c pages s -> step' a s = Some s' -> Inv c pages s'.
Proof.
  destruct a; [apply Inv_step_main|apply Inv_step_worker].
Qed.

Lemma Inv_exec c pages sched s s' :
  Inv c pages s -> exec' sched s = Some s' -> Inv c pages s'.
Proof.
  revert s. induction sched as [|a sched IH]; intros s Hinv; cbn.
  - intros [= <-]. exact Hinv.
  - destruct (step' a s) as [s1|] eqn:Hstep; [|discriminate].
    apply IH. eapply Inv_step; eassumption.
Qed.
End ThreadFacts.

(** ** [get] with its threads *)

Section GetThreads.
Variable expanduser : string -> string.
Variable denied : string -> bool.
Variable get_pages : string -> py (list Page).
Variable get_image_uri : string -> py string.
Variable requests_get : string -> http_result.

Local Abbreviation get' := (get expanduser denied get_pages get_image_uri requests_get).
Local Abbreviation get_begin' := (get_begin expanduser denied get_pages).
Local Abbreviation exec' := (exec get_image_uri requests_get).
Local Abbreviation file_of := (cbz_file_of expanduser).
Local Abbreviation tmp_of := (cbz_tmp_of expanduser).
Local Abbreviation Inv' := (Inv get_image_uri requests_get).

(** The state in which the first thread is started. *)
Lemma get_begin_Running g chapter w s0 :
  get_begin' g chapter w = Running s0 ->
  exists pages,
    get_pages (ch_uri chapter) = Ret pages /\
    pages <> [] /\
    isfile (st_fs s0) (file_of g chapter) = false /\
    st_fs s0 !! tmp_of g chapter = Some (File (Zip false [])) /\
    st_net s0 = w_net w ++ [GetPages (ch_uri chapter)] /\
    st_tmp s0 = tmp_of g chapter /\
    st_file s0 = file_of g chapter /\
    st_workers s0 = map (fun p => (p, WNew)) pages /\
    st_sem s0 = concurrency g /\
    st_queue s0 = [] /\ st_qlog s0 = [] /\ st_filelist s0 = [] /\
    st_main s0 = MSpawn 0.
Proof.
  unfold get_begin.
  destruct (get_dir expanduser denied g (w_fs w)) as [fs1|e]; [|discriminate].
  fold (file_of g chapter).
  destruct (isfile fs1 (file_of g chapter)) eqn:Hfile; [discriminate|].
  fold (tmp_of g chapter).
  destruct (zip_open denied fs1 (tmp_of g chapter)) as [fs2|e] eqn:Hopen; [|discriminate].
  destruct (get_pages (ch_uri chapter)) as [pages|e]; [|discriminate].
  destruct pages as [|p pages]; [discriminate|].
  cbn. intros [= <-]. exists (p :: pages). cbn.
  apply zip_open_Ret in Hopen. subst fs2.
  split; [reflexivity|]. split; [discriminate|].
  split; [rewrite isfile_insert_ne; [exact Hfile|apply append_tmp_ne]|].
  split; [apply lookup_insert_eq|]. repeat split.
Qed.

Lemma holders_new (pages : list Page) :
  holders (map (fun p => (p, WNew)) pages) = 0.
Proof. induction pages; [reflexivity|exact IHpages]. Qed.

Lemma emitted_new (pages : list Page) :
  emitted get_image_uri requests_get (map (fun p => (p, WNew)) pages) = [].
Proof. induction pages; [reflexivity|exact IHpages]. Qed.

Lemma get_begin_Inv g chapter w s0 :
  get_begin' g chapter w = Running s0 ->
  Inv' (concurrency g) (st_workers s0).*1 s0.
Proof.
  intros (pages & _ & _ & Hfile & Htmp & _ & Et & Ef & Ew & Es & Eq & El & Efl & Em)%get_begin_Running.
  unfold Inv, main_inv, in_flight, fifo, disk_open.
  rewrite Et, Ef, Ew, Es, Eq, El, Efl, Em, holders_new, emitted_new.
  split; [reflexivity|]. split; [reflexivity|]. split; [lia|].
  split; [reflexivity|]. split; [|auto].
  intros j q v Hj. rewrite list_lookup_fmap in Hj.
  destruct (pages !! j); [|discriminate]. injection Hj as _ <-.
  split; [lia|reflexivity].
Qed.
(** C4: at every point of a download, the workers that hold a permit,
    the only ones that fetch, are at most [concurrency], which
    [__init__] sets to 4; permits free and permits held add up to
    it. *)
Theorem in_flight_bounded g chapter w s0 sched s :
  get_begin' g chapter w = Running s0 ->
  exec' sched s0 = Some s ->
  in_flight s <= concurrency g /\
  st_sem s + in_flight s = concurrency g /\
  concurrency (GetManga_init (title g)) = 4.
Proof.
  intros Hbegin Hexec.
  pose proof (get_begin_Inv _ _ _ _ Hbegin) as Hinv.
  apply (Inv_exec _ _ _ _ _ _ _ Hinv) in Hexec.
  destruct Hexec as (_ & _ & Hsem & _). split; [lia|]. split; [exact Hsem|reflexivity].
Qed.

(** Workers never touch the disk, the archive or the main thread. *)
Lemma step_worker_frame k s s' :
  step_worker get_image_uri requests_get k s = Some s' ->
  st_fs s' = st_fs s /\ st_main s' = st_main s /\
  st_filelist s' = st_filelist s /\ st_out s' = st_out s.
Proof.
  unfold step_worker.
  destruct (st_workers s !! k) as [[p [| | | |]]|]; try discriminate.
  - destruct (st_sem s); [discriminate|]. intros [= <-]. auto.
  - destruct (get_image _ _ p (st_net s)) as [[it|] net]; intros [= <-]; auto.
  - intros [= <-]. auto.
Qed.

(** Once [get] is over, nothing the workers do changes its result or
    the disk. *)
Lemma exec_after_done sched s s' r :
  st_main s = MDone r -> exec' sched s = Some s' ->
  st_main s' = MDone r /\ st_fs s' = st_fs s /\
  st_filelist s' = st_filelist s /\ st_out s' = st_out s.
Proof.
  revert s. induction sched as [|a sched IH]; intros s Hm; cbn.
  - intros [= <-]. auto.
  - destruct a as [|k]; cbn.
    + unfold step_main. rewrite Hm. discriminate.
    + destruct (step_worker _ _ k s) as [s1|] eqn:Hstep; [|discriminate].
      apply step_worker_frame in Hstep as (Hfs & Hmain & Hfl & Hout).
      intros Hexec. apply IH in Hexec; [|congruence].
      destruct Hexec as (? & ? & ? & ?). repeat split; congruence.
Qed.
Lemma get_except_paths msg s :
  st_tmp (get_except msg s) = st_tmp s /\ st_file (get_except msg s) = st_file s.
Proof. unfold get_except. destruct (os_remove _ _); auto. Qed.

Lemma get_else_paths s :
  st_tmp (get_else s) = st_tmp s /\ st_file (get_else s) = st_file s.
Proof. unfold get_else. destruct (os_rename _ _ _); auto. Qed.

Lemma step_paths a s s' :
  step get_image_uri requests_get a s = Some s' ->
  st_tmp s' = st_tmp s /\ st_file s' = st_file s.
Proof.
  destruct a as [|k]; cbn.
  - unfold step_main.
    destruct (st_main s) as [i|i|i|r]; [| | |discriminate].
    + destruct (st_workers s !! i); intros [= <-]; auto.
    + destruct (st_workers s !! i) as [[p [| | | |]]|]; try discriminate;
        intros [= <-]; auto using get_else_paths.
    + destruct (st_queue s) as [|[name image|msg] q]; [discriminate| |].
      * destruct (truthy name).
        -- destruct (zip_writestr _ _ _ _ _) as [fs1 fl1].
           destruct (progress _ _ _) as [[|e] out1]; intros [= <-];
             [auto|apply (get_except_paths _ (set_disk _ _ _ (set_queue _ s)))].
        -- intros [= <-]. apply (get_except_paths _ (set_queue _ s)).
      * intros [= <-]. apply (get_except_paths _ (set_queue _ s)).
  - unfold step_worker.
    destruct (st_workers s !! k) as [[p [| | | |]]|]; try discriminate.
    + destruct (st_sem s); [discriminate|]. intros [= <-]. auto.
    + destruct (get_image _ _ p (st_net s)) as [[it|] net]; intros [= <-]; auto.
    + intros [= <-]. auto.
Qed.

Lemma exec_paths sched s s' :
  exec' sched s = Some s' ->
  st_tmp s' = st_tmp s /\ st_file s' = st_file s.
Proof.
  revert s. induction sched as [|a sched IH]; intros s; cbn.
  - intros [= <-]. auto.
  - destruct (step _ _ a s) as [s1|] eqn:Hstep; [|discriminate].
    intros Hexec. apply IH in Hexec as [-> ->]. eapply step_paths, Hstep.
Qed.

(** A reachable state satisfies the invariant and keeps the two paths
    of the call. *)
Lemma reachable_Inv g chapter w s0 sched s :
  get_begin' g chapter w = Running s0 ->
  exec' sched s0 = Some s ->
  Inv' (concurrency g) (st_workers s0).*1 s /\
  st_tmp s = tmp_of g chapter /\ st_file s = file_of g chapter.
Proof.
  intros Hbegin Hexec. split.
  - eapply Inv_exec; [|exact Hexec]. eapply get_begin_Inv, Hbegin.
  - apply exec_paths in Hexec as [-> ->].
    apply get_begin_Running in Hbegin as (pages & H). tauto.
Qed.

(** C3, amended: when the collecting loop takes a failure from the
    queue, [get] fails as a whole: it raises [MangaException], the
    temporary file is removed and nothing is at the final path; from
    then on no result is taken from the queue and nothing a worker
    does changes the disk or the outcome.  Every thread was started
    before, and none is stopped. *)
Theorem failure_observed_is_final g chapter w s0 sched s i msg q :
  get_begin' g chapter w = Running s0 ->
  exec' sched s0 = Some s ->
  st_main s = MGet i -> st_queue s = Failed msg :: q ->
  all_started (st_workers s) /\
  exists s1,
    step get_image_uri requests_get Main s = Some s1 /\
    st_main s1 = MDone (Raise (MangaException msg)) /\
    st_fs s1 !! tmp_of g chapter = None /\
    isfile (st_fs s1) (file_of g chapter) = false /\
    st_filelist s1 = st_filelist s /\
    (forall sched' s2, exec' sched' s1 = Some s2 ->
       st_main s2 = st_main s1 /\ st_fs s2 = st_fs s1 /\
       st_filelist s2 = st_filelist s1 /\ st_out s2 = st_out s1).
Proof.
  intros Hbegin Hexec Hm Hq.
  destruct (reachable_Inv _ _ _ _ _ _ Hbegin Hexec) as [Hinv [Htmp Hfile]].
  destruct Hinv as (Htf & _ & _ & _ & Hmain).
  unfold main_inv in Hmain. rewrite Hm in Hmain.
  destruct Hmain as (Hst & _ & _ & _ & _ & Hopen & Hnofile).
  split; [exact Hst|].
  assert (Hne : st_tmp s <> st_file s) by (rewrite Htf; apply append_tmp_ne).
  eexists. cbn. unfold step_main. rewrite Hm, Hq.
  split; [reflexivity|].
  rewrite get_except_eq by exact Hopen. cbn.
  split; [reflexivity|]. rewrite <- Htmp, <- Hfile.
  split; [apply lookup_delete_eq|].
  split; [unfold zip_close; rewrite isfile_delete_ne, isfile_insert_ne; assumption|].
  split; [reflexivity|].
  intros sched' s2 Hexec'.
  eapply exec_after_done in Hexec'; [|reflexivity]. exact Hexec'.
Qed.
Local Abbreviation page_item' := (page_item get_image_uri requests_get).

(** The archive member a page gives when its fetch succeeds. *)
Definition unentry (it : qitem) : option (string * bytes) :=
  match it with Fetched n b => Some (n, b) | Failed _ => None end.

Definition page_entry (p : Page) : option (string * bytes) :=
  page_item' p ≫= unentry.

Definition is_failed (o : option qitem) : bool :=
  match o with Some (Failed _) => true | _ => false end.

Lemma page_item_Fetched p n b :
  page_item' p = Some (Fetched n b) -> exists uri, n = member_name p uri.
Proof.
  unfold page_item, get_image, uriopen.
  destruct (get_image_uri (pg_uri p)) as [uri|[]]; try discriminate.
  destruct (requests_get uri); [|discriminate].
  intros [= <- _]. eauto.
Qed.

Lemma page_entry_name p n b :
  page_entry p = Some (n, b) -> exists uri, n = member_name p uri.
Proof.
  unfold page_entry. destruct (page_item' p) as [[n' b'|]|] eqn:Hit; try discriminate.
  cbn. intros [= <- <-]. eapply page_item_Fetched, Hit.
Qed.

Lemma omap_unentry_entry (fl : list (string * bytes)) :
  omap unentry (map entry_item fl) = fl.
Proof.
  induction fl as [|[n b] fl IH]; [reflexivity|]. cbn. rewrite IH. reflexivity.
Qed.

Lemma omap_unentry_items (pages : list Page) :
  omap unentry (omap page_item' pages) = omap page_entry pages.
Proof.
  induction pages as [|p pages IH]; [reflexivity|].
  cbn. unfold page_entry at 1.
  destruct (page_item' p) as [it|]; cbn; [|exact IH].
  destruct (unentry it); cbn; rewrite IH; reflexivity.
Qed.

Lemma emitted_elem (ws : list (Page * wstate)) it :
  it ∈ emitted get_image_uri requests_get ws ->
  exists p, p ∈ ws.*1 /\ page_item' p = Some it.
Proof.
  induction ws as [|[q v] ws IH]; cbn; [intros H; inversion H|].
  rewrite elem_of_app. intros [H|H].
  - destruct (past_put v); [|inversion H].
    destruct (page_item' q) as [it'|] eqn:Hq; [|inversion H].
    apply list_elem_of_singleton in H as ->. exists q. split; [left|exact Hq].
  - destruct (IH H) as (p & Hp & Hit). exists p. split; [right; exact Hp|exact Hit].
Qed.

(** When the collecting loop has run to its end, the members written
    are the results of the pages, one each, in the order in which
    they were put on the queue. *)
Lemma finished_members c s r :
  Inv' c (st_workers s).*1 s -> st_main s = MDone r -> raises_manga r = false ->
  map entry_item (st_filelist s) = st_qlog s /\
  st_filelist s ≡ₚ omap page_entry (st_workers s).*1 /\
  length (st_filelist s) = length (st_workers s).*1 /\
  Forall (fun p => is_Some (page_entry p)) (st_workers s).*1.
Proof.
  intros (_ & _ & _ & Hperm & Hmain) Hm Hr.
  unfold main_inv in Hmain. rewrite Hm in Hmain.
  assert (Hcol : done_below (length (st_workers s)) (st_workers s) /\
                 length (st_filelist s) = length (st_workers s) /\
                 fifo s /\ st_queue s = []).
  { destruct r as [u|[]]; try discriminate; tauto. }
  clear Hmain. destruct Hcol as (Hdone & Hlen & Hfifo & Hq).
  unfold fifo in Hfifo. rewrite Hq, app_nil_r in Hfifo.
  assert (Hfl : st_filelist s ≡ₚ omap page_entry (st_workers s).*1).
  { rewrite <- omap_unentry_items, <- (emitted_all_done _ _ (st_workers s)).
    - rewrite <- Hperm, Hfifo, omap_unentry_entry. reflexivity.
    - intros j p w Hj. apply (Hdone j p w Hj). eapply lookup_lt_Some, Hj. }
  split; [auto|]. split; [exact Hfl|]. split; [rewrite length_fmap; exact Hlen|].
  apply length_omap_full. rewrite <- Hfl, length_fmap. exact Hlen.
Qed.

(** The successful end of [get]: the archive is at the final path and
    the temporary file is gone. *)
Lemma returned_archive c s :
  Inv' c (st_workers s).*1 s -> st_main s = MDone (Ret tt) ->
  st_fs s !! st_file s = Some (File (Zip true (st_filelist s))) /\
  st_fs s !! st_tmp s = None.
Proof.
  intros (_ & _ & _ & _ & Hmain) Hm.
  unfold main_inv in Hmain. rewrite Hm in Hmain. tauto.
Qed.

(** [get] has not raised a [MangaException]. *)
Definition unfailed (s : state) : Prop :=
  match st_main s with
  | MDone (Raise (MangaException _)) => False
  | _ => True
  end.

Definition none_failed (pages : list Page) : bool :=
  forallb (fun p => negb (is_failed (page_item' p))) pages.

Lemma none_failed_elem pages p msg :
  none_failed pages = true -> p ∈ pages -> page_item' p <> Some (Failed msg).
Proof.
  unfold none_failed. rewrite forallb_forall. intros H Hp Hit.
  apply list_elem_of_In, H in Hp. rewrite Hit in Hp. discriminate.
Qed.

(** While no worker ends in a [MangaException], the main thread takes
    only fetched images from the queue, and does not fail. *)
Lemma unfailed_step c pages a s s' :
  none_failed pages = true ->
  Inv' c pages s -> unfailed s ->
  step get_image_uri requests_get a s = Some s' -> unfailed s'.
Proof.
  intros Hnf (_ & Hpages & _ & Hperm & Hmain) Hun.
  destruct a as [|k]; cbn.
  - unfold step_main, main_inv in *.
    destruct (st_main s) as [i|i|i|r] eqn:Hm; [| | |discriminate].
    + destruct (st_workers s !! i); intros [= <-]; exact I.
    + destruct (st_workers s !! i) as [[p [| | | |]]|]; try discriminate;
        intros [= <-]; unfold unfailed; [exact I|].
      unfold get_else. destruct (os_rename _ _ _) as [fs2|e] eqn:Hren; cbn; [exact I|].
      unfold os_rename in Hren.
      destruct (_ !! st_tmp s); [|injection Hren as <-; exact I].
      destruct (_ !! st_file s) as [[|c0]|]; try discriminate.
      injection Hren as <-. exact I.
    + destruct Hmain as (_ & _ & Hlt & _ & Hfifo & _).
      destruct (st_queue s) as [|it q] eqn:Hq; [discriminate|].
      assert (Hin : it ∈ st_qlog s).
      { unfold fifo in Hfifo. rewrite Hfifo, Hq. apply elem_of_app. right. left. }
      rewrite Hperm in Hin. apply emitted_elem in Hin as (p & Hp & Hit).
      rewrite Hpages in Hp.
      destruct it as [name image|msg].
      * apply page_item_Fetched in Hit as [uri ->].
        rewrite member_name_truthy. unfold zip_writestr, progress. cbn.
        destruct (length (st_workers s)); [lia|]. intros [= <-]. exact I.
      * exfalso. eapply none_failed_elem; eassumption.
  - intros Hstep. apply step_worker_frame in Hstep as (_ & Hmain' & _).
    unfold unfailed. rewrite Hmain'. exact Hun.
Qed.

Lemma unfailed_exec c pages sched s s' :
  none_failed pages = true ->
  Inv' c pages s -> unfailed s -> exec' sched s = Some s' -> unfailed s'.
Proof.
  intros Hnf. revert s. induction sched as [|a sched IH]; intros s Hinv Hun; cbn.
  - intros [= <-]. exact Hun.
  - destruct (step _ _ a s) as [s1|] eqn:Hstep; [|discriminate].
    apply IH; [eapply Inv_step; eassumption|eapply unfailed_step; eassumption].
Qed.
Definition is_done (m : mstate) : bool :=
  match m with MDone _ => true | _ => false end.

(** A worker whose fetch ends in an exception that is not a
    [MangaException] puts nothing on the queue. *)
Definition dies_silently (p : Page) : bool :=
  match page_item' p with None => true | Some _ => false end.

Lemma page_entry_not_silent p :
  is_Some (page_entry p) -> dies_silently p = false.
Proof.
  unfold page_entry, dies_silently. intros [e He].
  destruct (page_item' p); [reflexivity|discriminate].
Qed.

(** When a worker dies with nothing put, and no worker reports a
    [MangaException], the main thread never leaves [get]: it neither
    returns nor raises, and the temporary file stays where it is. *)
Lemma silent_failure_blocks g chapter w s0 sched s :
  get_begin' g chapter w = Running s0 ->
  none_failed (st_workers s0).*1 = true ->
  existsb dies_silently (st_workers s0).*1 = true ->
  exec' sched s0 = Some s ->
  is_done (st_main s) = false /\
  st_fs s !! tmp_of g chapter = Some (File (Zip false (st_filelist s))) /\
  isfile (st_fs s) (file_of g chapter) = false.
Proof.
  intros Hbegin Hnf Hsilent Hexec.
  destruct (reachable_Inv _ _ _ _ _ _ Hbegin Hexec) as [Hinv [Htmp Hfile]].
  assert (Hun : unfailed s).
  { eapply unfailed_exec; [exact Hnf|eapply get_begin_Inv, Hbegin| |exact Hexec].
    apply get_begin_Running in Hbegin as (pages & H).
    unfold unfailed. replace (st_main s0) with (MSpawn 0) by (symmetry; tauto). exact I. }
  assert (Hpages : (st_workers s).*1 = (st_workers s0).*1) by apply Hinv.
  assert (Hnd : is_done (st_main s) = false).
  { destruct (st_main s) as [i|i|i|r] eqn:Hm; try reflexivity. exfalso.
    destruct (raises_manga r) eqn:Hr.
    - unfold unfailed in Hun. rewrite Hm in Hun.
      destruct r as [u|[]]; try discriminate. exact Hun.
    - rewrite <- Hpages in Hinv.
      destruct (finished_members _ _ _ Hinv Hm Hr) as (_ & _ & _ & Hall).
      rewrite Hpages in Hall.
      apply existsb_exists in Hsilent as (p & Hp & Hdies).
      rewrite Forall_forall in Hall.
      apply list_elem_of_In, Hall, page_entry_not_silent in Hp. congruence. }
  split; [exact Hnd|].
  destruct Hinv as (_ & _ & _ & _ & Hmain). unfold main_inv, disk_open in Hmain.
  rewrite <- Htmp, <- Hfile.
  destruct (st_main s) as [i|i|i|r]; [| | |discriminate]; tauto.
Qed.

(** What a successful [get] leaves: the closed archive at the final
    path, no temporary file, and as members the results of the pages,
    one each, in the order of the queue. *)
Lemma download_result g chapter w s0 sched s :
  get_begin' g chapter w = Running s0 ->
  exec' sched s0 = Some s -> st_main s = MDone (Ret tt) ->
  st_fs s !! file_of g chapter = Some (File (Zip true (st_filelist s))) /\
  st_fs s !! tmp_of g chapter = None /\
  map entry_item (st_filelist s) = st_qlog s /\
  st_filelist s ≡ₚ omap page_entry (st_workers s0).*1 /\
  length (st_filelist s) = length (st_workers s0).*1 /\
  Forall (fun p => is_Some (page_entry p)) (st_workers s0).*1.
Proof.
  intros Hbegin Hexec Hm.
  destruct (reachable_Inv _ _ _ _ _ _ Hbegin Hexec) as [Hinv [Htmp Hfile]].
  assert (Hpages : (st_workers s).*1 = (st_workers s0).*1) by apply Hinv.
  rewrite <- Hpages in *.
  destruct (returned_archive _ _ Hinv Hm) as [Hf Ht].
  destruct (finished_members _ _ _ Hinv Hm eq_refl) as (? & ? & ? & ?).
  rewrite <- Htmp, <- Hfile. auto 10.
Qed.
(** *** Every schedule ends *)

Definition wmeasure (w : wstate) : nat :=
  match w with WNew | WAcquire => 3 | WFetch => 2 | WRelease => 1 | WDone => 0 end.

Fixpoint wsum (ws : list (Page * wstate)) : nat :=
  match ws with
  | [] => 0
  | (_, w) :: rest => wmeasure w + wsum rest
  end.

Definition mmeasure (n : nat) (m : mstate) : nat :=
  match m with
  | MSpawn i => 2 * n + 2 + (n - i)
  | MJoin i => 2 * (n - i) + 1
  | MGet i => 2 * (n - i)
  | MDone _ => 0
  end.

(** The number of steps left at most. *)
Definition measure (s : state) : nat :=
  mmeasure (length (st_workers s)) (st_main s) + wsum (st_workers s).

Lemma wsum_alter (ws : list (Page * wstate)) i p w w' :
  ws !! i = Some (p, w) ->
  wsum (alter (set_wstate w') i ws) + wmeasure w = wsum ws + wmeasure w'.
Proof.
  revert i. induction ws as [|[q v] ws IH]; intros [|i] H; try discriminate.
  - injection H as -> ->. cbn. lia.
  - cbn in H. apply IH in H.
    change (alter (set_wstate w') (S i) ((q, v) :: ws))
      with ((q, v) :: alter (set_wstate w') i ws).
    cbn [wsum]. lia.
Qed.

Lemma measure_get_except msg s :
  st_main s <> MDone (Raise (MangaException msg)) ->
  measure (get_except msg s) = wsum (st_workers s).
Proof.
  intros _. unfold get_except, measure. destruct (os_remove _ _); reflexivity.
Qed.

Lemma measure_get_else s : measure (get_else s) = wsum (st_workers s).
Proof. unfold get_else, measure. destruct (os_rename _ _ _); reflexivity. Qed.

Lemma step_measure c pages a s s' :
  Inv' c pages s -> step get_image_uri requests_get a s = Some s' ->
  measure s' < measure s.
Proof.
  intros (_ & _ & _ & _ & Hmain). destruct a as [|k]; cbn.
  - unfold step_main, main_inv in *.
    destruct (st_main s) as [i|i|i|r] eqn:Hm; [| | |discriminate].
    + destruct Hmain as (Hsp & _).
      destruct (st_workers s !! i) as [[p w]|] eqn:Hi; intros [= <-].
      * assert (w = WNew) as -> by (apply (Hsp i p w Hi); lia).
        pose proof (wsum_alter _ i p WNew WAcquire Hi) as Hw. cbn in Hw.
        apply lookup_lt_Some in Hi.
        unfold measure. cbn. rewrite length_alter_wstate, Hm. cbn. lia.
      * unfold measure. cbn. rewrite Hm. cbn. lia.
    + destruct (st_workers s !! i) as [[p [| | | |]]|]; try discriminate;
        intros [= <-].
      * unfold measure. cbn. rewrite Hm. cbn. lia.
      * rewrite measure_get_else. unfold measure. rewrite Hm. cbn. lia.
    + destruct Hmain as (_ & _ & Hlt & _).
      assert (Hpos : wsum (st_workers s) < measure s).
      { unfold measure. rewrite Hm. cbn. lia. }
      destruct (st_queue s) as [|[name image|msg] q]; [discriminate| |].
      * destruct (truthy name).
        -- unfold zip_writestr, progress. cbn.
           destruct (length (st_workers s)) as [|n] eqn:Hn; [lia|].
           intros [= <-]. unfold measure. cbn. rewrite Hm, Hn. cbn. lia.
        -- intros [= <-]. rewrite measure_get_except by (cbn; congruence).
           exact Hpos.
      * intros [= <-]. rewrite measure_get_except by (cbn; congruence).
        exact Hpos.
  - unfold step_worker.
    destruct (st_workers s !! k) as [[p w]|] eqn:Hk; [|discriminate].
    destruct w; try discriminate.
    + destruct (st_sem s); [discriminate|]. intros [= <-].
      pose proof (wsum_alter _ k p WAcquire WFetch Hk) as Hw. cbn in Hw.
      unfold measure. cbn. rewrite length_alter_wstate. lia.
    + pose proof (wsum_alter _ k p WFetch WRelease Hk) as Hw. cbn in Hw.
      destruct (get_image _ _ p (st_net s)) as [[it|] net]; intros [= <-];
        unfold measure; cbn; rewrite length_alter_wstate; lia.
    + intros [= <-].
      pose proof (wsum_alter _ k p WRelease WDone Hk) as Hw. cbn in Hw.
      unfold measure. cbn. rewrite length_alter_wstate. lia.
Qed.
Lemma holders_pos (ws : list (Page * wstate)) :
  0 < holders ws -> exists k p w, ws !! k = Some (p, w) /\ holding w = true.
Proof.
  induction ws as [|[q v] ws IH]; cbn; [lia|].
  destruct (holding v) eqn:Hv.
  - intros _. exists 0, q, v. auto.
  - intros H. destruct IH as (k & p & w & Hk & Hw); [lia|].
    exists (S k), p, w. auto.
Qed.

Definition all_put (pages : list Page) : bool :=
  forallb (fun p => negb (dies_silently p)) pages.

Lemma emitted_done_below (ws : list (Page * wstate)) k :
  all_put ws.*1 = true -> done_below k ws -> k <= length ws ->
  k <= length (emitted get_image_uri requests_get ws).
Proof.
  revert k. induction ws as [|[q v] ws IH]; intros [|k] Hput Hdone Hle;
    cbn in *; try lia.
  apply andb_prop in Hput as [Hq Hput].
  assert (v = WDone) as -> by (apply (Hdone 0 q v); [reflexivity|lia]).
  unfold dies_silently in Hq. cbn.
  destruct (page_item' q); [|discriminate]. cbn.
  apply le_n_S, IH; [exact Hput| |lia].
  intros j p w Hj Hlt. apply (Hdone (S j) p w Hj). lia.
Qed.

(** With a permit to give and workers that all put something, a thread
    can always move until [get] is over: there is no deadlock. *)
Lemma step_exists c pages s :
  Inv' c pages s -> 1 <= c -> all_put pages = true ->
  is_done (st_main s) = false ->
  exists a s', step get_image_uri requests_get a s = Some s'.
Proof.
  intros (_ & Hpages & Hsem & Hperm & Hmain) Hc Hput Hnd.
  unfold main_inv in Hmain.
  destruct (st_main s) as [i|i|i|r] eqn:Hm; [| | |discriminate].
  - exists Main. cbn. unfold step_main. rewrite Hm.
    destruct (st_workers s !! i); eauto.
  - destruct Hmain as (Hst & _).
    destruct (st_workers s !! i) as [[p w]|] eqn:Hi.
    + assert (Hw : w <> WNew) by (eapply Hst, Hi).
      destruct w; try congruence.
      * destruct (st_sem s) as [|n] eqn:Hn.
        -- unfold in_flight in Hsem.
           destruct (holders_pos (st_workers s)) as (k & q & v & Hk & Hv); [lia|].
           exists (Worker k). cbn. unfold step_worker. rewrite Hk.
           destruct v; try discriminate; [|eauto].
           destruct (get_image _ _ q (st_net s)) as [[it|] net]; eauto.
        -- exists (Worker i). cbn. unfold step_worker. rewrite Hi, Hn. eauto.
      * exists (Worker i). cbn. unfold step_worker. rewrite Hi.
        destruct (get_image _ _ p (st_net s)) as [[it|] net]; eauto.
      * exists (Worker i). cbn. unfold step_worker. rewrite Hi. eauto.
      * exists Main. cbn. unfold step_main. rewrite Hm, Hi. eauto.
    + exists Main. cbn. unfold step_main. rewrite Hm, Hi. eauto.
  - destruct Hmain as (_ & Hdn & Hlt & Hlen & Hfifo & _).
    exists Main. cbn. unfold step_main. rewrite Hm.
    destruct (st_queue s) as [|it q] eqn:Hq.
    + exfalso. rewrite <- Hpages in Hput.
      pose proof (emitted_done_below _ (S i) Hput Hdn Hlt) as Hle.
      apply Permutation_length in Hperm. unfold fifo in Hfifo.
      rewrite Hfifo, Hq, app_nil_r, length_map in Hperm. lia.
    + destruct it as [name image|msg]; [|eauto].
      destruct (truthy name); [|eauto].
      destruct (zip_writestr _ _ _ _ _) as [fs1 fl1].
      destruct (progress _ _ _) as [[u|e] out1]; eauto.
Qed.

(** Under the same conditions, from every state that can be reached
    some schedule brings [get] to its end. *)
Lemma exec_completes c pages n s :
  measure s <= n ->
  Inv' c pages s -> 1 <= c -> all_put pages = true ->
  exists sched s', exec' sched s = Some s' /\ is_done (st_main s') = true.
Proof.
  revert s. induction n as [|n IH]; intros s Hn Hinv Hc Hput.
  - destruct (is_done (st_main s)) eqn:Hd.
    + exists [], s. auto.
    + destruct (step_exists _ _ _ Hinv Hc Hput Hd) as (a & s1 & Hstep).
      pose proof (step_measure _ _ _ _ _ Hinv Hstep). lia.
  - destruct (is_done (st_main s)) eqn:Hd.
    + exists [], s. auto.
    + destruct (step_exists _ _ _ Hinv Hc Hput Hd) as (a & s1 & Hstep).
      pose proof (step_measure _ _ _ _ _ Hinv Hstep) as Hlt.
      destruct (IH s1) as (sched & s' & Hexec & Hdone);
        [lia|eapply Inv_step; eassumption|assumption|assumption|].
      exists (a :: sched), s'. cbn. rewrite Hstep. auto.
Qed.
(** Until [get] is over, and when its last [os.rename] fails, what is
    at the final path is what was there at the start. *)
Definition final_kept (v : option node) (s : state) : Prop :=
  match st_main s with
  | MDone (Ret _) | MDone (Raise (MangaException _)) => True
  | _ => st_fs s !! st_file s = v
  end.

Lemma final_kept_step c pages v a s s' :
  Inv' c pages s -> final_kept v s ->
  step get_image_uri requests_get a s = Some s' -> final_kept v s'.
Proof.
  intros (Htmp & _ & _ & _ & Hmain) Hk.
  assert (Hne : st_tmp s <> st_file s) by (rewrite Htmp; apply append_tmp_ne).
  destruct a as [|k]; cbn.
  - unfold step_main, final_kept, main_inv in *.
    destruct (st_main s) as [i|i|i|r] eqn:Hm; [| | |discriminate].
    + destruct (st_workers s !! i); intros [= <-]; exact Hk.
    + destruct (st_workers s !! i) as [[p [| | | |]]|]; try discriminate;
        intros [= <-]; [exact Hk|].
      unfold get_else, os_rename, zip_close.
      rewrite lookup_insert_eq, lookup_insert_ne by exact Hne.
      destruct (st_fs s !! st_file s) as [[|c0]|] eqn:Hlk; cbn; try exact I.
      rewrite lookup_insert_ne by exact Hne. congruence.
    + destruct Hmain as (_ & _ & Hlt & _ & _ & Hopen & _).
      destruct (st_queue s) as [|[name image|msg] q]; [discriminate| |].
      * destruct (truthy name).
        -- unfold zip_writestr, progress. cbn.
           destruct (length (st_workers s)); [lia|].
           intros [= <-]. cbn. rewrite lookup_insert_ne by exact Hne. exact Hk.
        -- intros [= <-].
           rewrite (get_except_eq _ (set_queue q s)) by exact Hopen. exact I.
      * intros [= <-].
        rewrite (get_except_eq _ (set_queue q s)) by exact Hopen. exact I.
  - intros Hstep.
    pose proof (step_paths (Worker k) _ _ Hstep) as [_ Hfile].
    apply step_worker_frame in Hstep as (Hfs & Hm & _).
    unfold final_kept. rewrite Hm, Hfs, Hfile. exact Hk.
Qed.

Lemma final_kept_exec c pages v sched s s' :
  Inv' c pages s -> final_kept v s -> exec' sched s = Some s' -> final_kept v s'.
Proof.
  revert s. induction sched as [|a sched IH]; intros s Hinv Hk; cbn.
  - intros [= <-]. exact Hk.
  - destruct (step _ _ a s) as [s1|] eqn:Hstep; [|discriminate].
    apply IH; [eapply Inv_step; eassumption|eapply final_kept_step; eassumption].
Qed.
(** Every page of the list is fetched: its worker puts a name and an
    image on the queue. *)
Definition all_fetched (pages : list Page) : bool :=
  forallb (fun p => bool_decide (is_Some (page_entry p))) pages.

Lemma all_fetched_none_failed pages :
  all_fetched pages = true -> none_failed pages = true /\ all_put pages = true.
Proof.
  unfold all_fetched, none_failed, all_put. rewrite !forallb_forall.
  intros H. split; intros p Hp; apply H, bool_decide_eq_true in Hp as [e He];
    unfold page_entry, dies_silently in *;
    destruct (page_item' p) as [[n b|m]|]; try discriminate; reflexivity.
Qed.

(** When every page is fetched, a permit exists and no directory sits
    at the final path, [get] can run to its end, and it returns. *)
Lemma download_returns g chapter w s0 :
  get_begin' g chapter w = Running s0 ->
  all_fetched (st_workers s0).*1 = true ->
  1 <= concurrency g ->
  isdir (st_fs s0) (file_of g chapter) = false ->
  exists sched s, exec' sched s0 = Some s /\ st_main s = MDone (Ret tt).
Proof.
  intros Hbegin Hall Hc Hdir.
  apply all_fetched_none_failed in Hall as [Hnf Hput].
  pose proof (get_begin_Inv _ _ _ _ Hbegin) as Hinv0.
  destruct (exec_completes _ _ _ s0 (le_n _) Hinv0 Hc Hput)
    as (sched & s & Hexec & Hdone).
  exists sched, s. split; [exact Hexec|].
  pose proof (get_begin_Running _ _ _ _ Hbegin) as (pages & H).
  assert (Hm0 : st_main s0 = MSpawn 0) by tauto.
  assert (Hf0 : st_file s0 = file_of g chapter) by tauto.
  assert (Hun : unfailed s).
  { eapply unfailed_exec; [exact Hnf|exact Hinv0| |exact Hexec].
    unfold unfailed. rewrite Hm0. exact I. }
  assert (Hk : final_kept (st_fs s0 !! st_file s0) s).
  { eapply final_kept_exec; [exact Hinv0| |exact Hexec].
    unfold final_kept. rewrite Hm0. reflexivity. }
  pose proof (Inv_exec _ _ _ _ _ _ _ Hinv0 Hexec) as (_ & _ & _ & _ & Hmain).
  unfold unfailed, final_kept, main_inv in *.
  destruct (st_main s) as [i|i|i|[[]|[]]]; try discriminate;
    try contradiction; [reflexivity|..];
    exfalso; unfold isdir in Hdir; rewrite <- Hf0, <- Hk in Hdir;
    destruct Hmain as (_ & _ & _ & _ & Hd & _); rewrite Hd in Hdir; discriminate.
Qed.

Lemma NoDup_entries (pages : list Page) :
  NoDup (pg_name <$> pages) -> NoDup (omap page_entry pages).*1.
Proof.
  induction pages as [|p pages IH]; cbn; [constructor|].
  intros [Hp Hnd]%NoDup_cons.
  destruct (page_entry p) as [[n b]|] eqn:He; cbn; [|auto].
  apply NoDup_cons. split; [|auto].
  intros Hin. apply Hp.
  apply list_elem_of_fmap in Hin as ([n' b'] & Hn & Hin). cbn in Hn. subst n'.
  apply list_elem_of_omap in Hin as (q & Hq & Heq).
  apply page_entry_name in He as [u ->].
  apply page_entry_name in Heq as [v Heq].
  apply member_name_inj in Heq. rewrite Heq.
  apply list_elem_of_fmap. eauto.
Qed.
Lemma get_begin_pages g chapter w s0 pages :
  get_begin' g chapter w = Running s0 ->
  get_pages (ch_uri chapter) = Ret pages ->
  (st_workers s0).*1 = pages.
Proof.
  intros (pages' & Hp & _ & _ & _ & _ & _ & _ & Hw & _)%get_begin_Running Hpages.
  rewrite Hw. assert (pages' = pages) as -> by congruence.
  clear. induction pages as [|p pages IH]; [reflexivity|].
  cbn. f_equal. exact IH.
Qed.

(** C1, amended: when every page of the list is fetched, [get] can run
    to its end and returns, and whenever it returns the archive at the
    final path holds one member for each page of the list, in the order
    in which the workers put their results on the queue; that is the
    order of the list when the fetches end in that order, and a
    rearrangement of it otherwise. *)
Theorem archive_in_completion_order g chapter w s0 pages :
  get_begin' g chapter w = Running s0 ->
  get_pages (ch_uri chapter) = Ret pages ->
  all_fetched pages = true ->
  1 <= concurrency g ->
  isdir (st_fs s0) (file_of g chapter) = false ->
  (exists sched s, exec' sched s0 = Some s /\ st_main s = MDone (Ret tt)) /\
  (forall sched s,
     exec' sched s0 = Some s -> st_main s = MDone (Ret tt) ->
     exists members,
       st_fs s !! file_of g chapter = Some (File (Zip true members)) /\
       map entry_item members = st_qlog s /\
       members ≡ₚ omap page_entry pages /\
       length members = length pages /\
       (st_qlog s = omap page_item' pages -> members = omap page_entry pages)).
Proof.
  intros Hbegin Hpages Hall Hc Hdir.
  pose proof (get_begin_pages _ _ _ _ _ Hbegin Hpages) as Hws. subst pages.
  split; [eapply download_returns; eassumption|].
  intros sched s Hexec Hm.
  destruct (download_result _ _ _ _ _ _ Hbegin Hexec Hm)
    as (Hfile & _ & Hlog & Hperm & Hlen & _).
  exists (st_filelist s). repeat split; try assumption.
  intros Horder. rewrite <- omap_unentry_items, <- Horder, <- Hlog.
  symmetry. apply omap_unentry_entry.
Qed.

(** C8, amended: when the names of the pages of the list are pairwise
    distinct, so are the names of the members of the archive [get]
    leaves when it returns. *)
Theorem distinct_pages_distinct_members g chapter w s0 pages sched s :
  get_begin expanduser denied get_pages g chapter w = Running s0 ->
  get_pages (ch_uri chapter) = Ret pages ->
  exec get_image_uri requests_get sched s0 = Some s ->
  st_main s = MDone (Ret tt) ->
  NoDup (pg_name <$> pages) ->
  exists members,
    st_fs s !! file_of g chapter = Some (File (Zip true members)) /\
    length members = length pages /\
    NoDup members.*1.
Proof.
  intros Hbegin Hpages Hexec Hm Hnd.
  pose proof (get_begin_pages _ _ _ _ _ Hbegin Hpages) as Hws. subst pages.
  destruct (download_result _ _ _ _ _ _ Hbegin Hexec Hm)
    as (Hfile & _ & _ & Hperm & Hlen & _).
  exists (st_filelist s). split; [exact Hfile|]. split; [exact Hlen|].
  rewrite Hperm. apply NoDup_entries, Hnd.
Qed.

(** *** Further properties of the threads *)



(** The final path is all or nothing: at every moment of a download, a
    file is there only when [get] has returned, and then it is the
    closed archive with one member for each page. *)
Theorem final_path_all_or_nothing g chapter w s0 sched s :
  get_begin expanduser denied get_pages g chapter w = Running s0 ->
  exec get_image_uri requests_get sched s0 = Some s ->
  isfile (st_fs s) (file_of g chapter) = true ->
  st_main s = MDone (Ret tt) /\
  st_fs s !! file_of g chapter = Some (File (Zip true (st_filelist s))) /\
  length (st_filelist s) = length (st_workers s0).*1 /\
  st_filelist s ≡ₚ omap page_entry (st_workers s0).*1.
Proof.
  intros Hbegin Hexec Hfile.
  assert (Hm : st_main s = MDone (Ret tt)).
  { destruct (reachable_Inv _ _ _ _ _ _ Hbegin Hexec) as [Hinv [_ Hf]].
    destruct Hinv as (_ & _ & _ & _ & Hmain).
    unfold main_inv, disk_open, isfile in *. rewrite <- Hf in Hfile.
    destruct (st_main s) as [i|i|i|[[]|[]]]; try reflexivity; exfalso;
      try (destruct Hmain as (_ & _ & _ & _ & Hd & _); rewrite Hd in Hfile; discriminate);
      try (assert (Hnf : match st_fs s !! st_file s with
                         | Some (File _) => true | _ => false end = false) by tauto;
           congruence). }
  split; [exact Hm|].
  destruct (download_result _ _ _ _ _ _ Hbegin Hexec Hm) as (? & _ & _ & ? & ? & _).
  auto.
Qed.





Lemma exec_app sched1 sched2 s s1 :
  exec' sched1 s = Some s1 -> exec' (sched1 ++ sched2) s = exec' sched2 s1.
Proof.
  revert s. induction sched1 as [|a sched1 IH]; intros s; cbn.
  - intros [= <-]. reflexivity.
  - destruct (step _ _ a s) as [s'|]; [apply IH|discriminate].
Qed.




(** With at least one permit, and workers that each put a result or a
    reported failure on the queue, [get] cannot get stuck: whatever the
    threads have done so far, some continuation brings [get] to return
    or to raise. *)
Theorem get_can_always_finish g chapter w s0 pages sched s :
  get_begin expanduser denied get_pages g chapter w = Running s0 ->
  get_pages (ch_uri chapter) = Ret pages ->
  1 <= concurrency g ->
  all_put pages = true ->
  exec get_image_uri requests_get sched s0 = Some s ->
  exists rest s',
    exec get_image_uri requests_get (sched ++ rest) s0 = Some s' /\
    is_done (st_main s') = true.
Proof.
  intros Hbegin Hpages Hc Hput Hexec.
  pose proof (get_begin_pages _ _ _ _ _ Hbegin Hpages) as Hws. subst pages.
  pose proof (Inv_exec _ _ _ _ _ _ _ (get_begin_Inv _ _ _ _ Hbegin) Hexec) as Hinv.
  destruct (exec_completes _ _ _ s (le_n _) Hinv Hc Hput) as (rest & s' & Hrest & Hd).
  exists rest, s'. split; [|exact Hd].
  rewrite (exec_app _ _ _ _ Hexec). exact Hrest.
Qed.

(** The lines of the progress bar for the counts [i], ..., [i + k - 1]
    of a chapter of [n] pages. *)
Definition bars (n i k : nat) : list output :=
  map (fun j => Bar j n (j =? n)%nat) (seq i k).

Lemma bars_snoc n i k : bars n i (S k) = bars n i k ++ [Bar (i + k) n (i + k =? n)%nat].
Proof. unfold bars. rewrite seq_S, map_app. reflexivity. Qed.

Lemma step_bars c pages base a s s' :
  Inv' c pages s ->
  step get_image_uri requests_get a s = Some s' ->
  st_out s = base ++ bars (length (st_workers s)) 1 (length (st_filelist s)) ->
  st_out s' = base ++ bars (length (st_workers s')) 1 (length (st_filelist s')).
Proof.
  intros (_ & _ & _ & _ & Hmain) Hstep Hout. destruct a as [|k]; cbn in Hstep.
  - assert (Hexc : forall msg s1, st_out s1 = st_out s ->
               st_workers s1 = st_workers s -> st_filelist s1 = st_filelist s ->
               st_out (get_except msg s1) =
               base ++ bars (length (st_workers (get_except msg s1))) 1
                            (length (st_filelist (get_except msg s1)))).
    { intros msg s1 Ho Hw Hf. unfold get_except.
      destruct (os_remove _ _); cbn; rewrite Ho, Hw, Hf; exact Hout. }
    unfold step_main, main_inv in *.
    destruct (st_main s) as [i|i|i|r]; [| | |discriminate].
    + destruct (st_workers s !! i); injection Hstep as <-; cbn;
        rewrite ?length_alter_wstate; exact Hout.
    + destruct (st_workers s !! i) as [[q [| | | |]]|]; try discriminate;
        injection Hstep as <-; [exact Hout|].
      unfold get_else. destruct (os_rename _ _ _); exact Hout.
    + destruct Hmain as (_ & _ & Hlt & _).
      destruct (st_queue s) as [|[name image|msg] q]; [discriminate| |].
      * destruct (truthy name).
        -- unfold zip_writestr, progress in Hstep. cbn in Hstep.
           destruct (length (st_workers s)) as [|n] eqn:Hn; [lia|].
           injection Hstep as <-. cbn.
           rewrite ?Hn in Hout.
           rewrite ?Hn, length_app, Nat.add_comm. cbn [length Nat.add].
           fold (bars (S n) 1 (S (length (st_filelist s)))).
           rewrite bars_snoc, Hout, (assoc_L (++)). reflexivity.
        -- injection Hstep as <-. apply Hexc; reflexivity.
      * injection Hstep as <-. apply Hexc; reflexivity.
  - unfold step_worker in Hstep.
    destruct (st_workers s !! k) as [[q [| | | |]]|]; try discriminate.
    + destruct (st_sem s); [discriminate|]. injection Hstep as <-. cbn.
      rewrite length_alter_wstate. exact Hout.
    + destruct (get_image _ _ q (st_net s)) as [[it|] net]; injection Hstep as <-;
        cbn; rewrite length_alter_wstate; exact Hout.
    + injection Hstep as <-. cbn. rewrite length_alter_wstate. exact Hout.
Qed.

Lemma exec_bars c pages base sched s s' :
  Inv' c pages s ->
  exec' sched s = Some s' ->
  st_out s = base ++ bars (length (st_workers s)) 1 (length (st_filelist s)) ->
  st_out s' = base ++ bars (length (st_workers s')) 1 (length (st_filelist s')).
Proof.
  revert s. induction sched as [|a sched IH]; intros s Hinv; cbn.
  - intros [= <-]. auto.
  - destruct (step _ _ a s) as [s1|] eqn:Hstep; [|discriminate].
    intros Hexec Hout. apply (IH s1); [eapply Inv_step; eassumption|exact Hexec|].
    eapply step_bars; eassumption.
Qed.

(** Progress is reported in order: after the line that announces the
    download, the bar is written for 0 of [N], then once for every
    member added, with its count, and with the newline on the count [N]
    alone; a download that returns has reported [N] of [N]. *)
Theorem progress_reports_in_order g chapter w s0 pages sched s :
  get_begin expanduser denied get_pages g chapter w = Running s0 ->
  get_pages (ch_uri chapter) = Ret pages ->
  exec get_image_uri requests_get sched s0 = Some s ->
  st_out s =
    w_out w
    ++ [Text ("downloading " +:+ title g +:+ " " +:+ ch_number chapter +:+ ":" +:+ newline)]
    ++ bars (length pages) 0 (S (length (st_filelist s))) /\
  (st_main s = MDone (Ret tt) -> length (st_filelist s) = length pages).
Proof.
  intros Hbegin Hpages Hexec.
  pose proof (get_begin_pages _ _ _ _ _ Hbegin Hpages) as Hws.
  pose proof (get_begin_Inv _ _ _ _ Hbegin) as Hinv0.
  pose proof (Inv_exec _ _ _ _ _ _ _ Hinv0 Hexec) as Hinv.
  assert (Hlen : length (st_workers s) = length pages).
  { destruct Hinv as (_ & Hp & _). rewrite <- Hws, <- Hp, length_fmap. reflexivity. }
  split.
  - rewrite <- Hlen.
    rewrite (exec_bars _ _
               (w_out w ++ [Text ("downloading " +:+ title g +:+ " " +:+
                                  ch_number chapter +:+ ":" +:+ newline)]
                ++ [Bar 0 (length pages) false]) _ _ _ Hinv0 Hexec).
    + rewrite Hlen. unfold bars. cbn [seq map].
      destruct pages as [|p pages]; [|rewrite <- !(assoc_L (++)); reflexivity].
      apply get_begin_Running in Hbegin as (pages' & Hp' & Hne & _). congruence.
    + clear Hexec Hinv Hlen Hinv0. unfold get_begin in Hbegin.
      destruct (get_dir _ _ _ _); [|discriminate].
      destruct (isfile _ _); [discriminate|].
      destruct (zip_open _ _ _); [|discriminate].
      rewrite Hpages in Hbegin.
      destruct pages as [|p pages]; [discriminate|].
      cbn in Hbegin. injection Hbegin as <-. cbn.
      rewrite app_nil_r, <- !(assoc_L (++)). reflexivity.
  - intros Hm. rewrite <- Hws.
    destruct (download_result _ _ _ _ _ _ Hbegin Hexec Hm) as (_ & _ & _ & _ & Hl & _).
    exact Hl.
Qed.

(** A fetch that ends in an exception other than [MangaException]
    is never reported: when that happens to some page, and no page
    reports a [MangaException], [get] neither returns nor raises under
    any schedule, and the temporary file stays on disk. *)
Theorem unreported_failure_blocks_get g chapter w s0 pages sched :
  get_begin expanduser denied get_pages g chapter w = Running s0 ->
  get_pages (ch_uri chapter) = Ret pages ->
  none_failed pages = true ->
  existsb dies_silently pages = true ->
  get expanduser denied get_pages get_image_uri requests_get g chapter w sched = None /\
  forall s,
    exec get_image_uri requests_get sched s0 = Some s ->
    is_done (st_main s) = false /\
    isfile (st_fs s) (cbz_tmp_of expanduser g chapter) = true /\
    isfile (st_fs s) (cbz_file_of expanduser g chapter) = false.
Proof.
  intros Hbegin Hpages Hnf Hsilent.
  pose proof (get_begin_pages _ _ _ _ _ Hbegin Hpages) as Hws. subst pages.
  assert (Hblock : forall s,
             exec' sched s0 = Some s ->
             is_done (st_main s) = false /\
             isfile (st_fs s) (tmp_of g chapter) = true /\
             isfile (st_fs s) (file_of g chapter) = false).
  { intros s Hexec.
    destruct (silent_failure_blocks _ _ _ _ _ _ Hbegin Hnf Hsilent Hexec)
      as (Hnd & Htmp & Hfile).
    split; [exact Hnd|]. split; [|exact Hfile].
    unfold isfile. rewrite Htmp. reflexivity. }
  split; [|exact Hblock].
  unfold get. rewrite Hbegin.
  destruct (exec' sched s0) as [s|] eqn:Hexec; [|reflexivity].
  destruct (Hblock s eq_refl) as [Hnd _].
  destruct (st_main s); try reflexivity. discriminate.
Qed.

(** With no permit no worker gets past [semaphore.acquire()]. *)
Definition all_waiting (s : state) : Prop :=
  (forall j p w, st_workers s !! j = Some (p, w) -> w = WNew \/ w = WAcquire) /\
  match st_main s with MSpawn _ | MJoin 0 => True | _ => False end.

Lemma all_waiting_step pages net a s s' :
  Inv' 0 pages s -> pages <> [] ->
  all_waiting s -> st_net s = net ->
  step get_image_uri requests_get a s = Some s' ->
  all_waiting s' /\ st_net s' = net.
Proof.
  intros (_ & Hpages & Hsem & _) Hne [Hw Hm] Hnet Hstep.
  destruct a as [|k]; cbn in Hstep.
  - unfold step_main in Hstep.
    destruct (st_main s) as [i|[|i]|i|r]; try contradiction.
    + destruct (st_workers s !! i) as [pw|]; injection Hstep as <-;
        (split; [split; [|exact I]|exact Hnet]); [|exact Hw].
      intros j p w Hj. cbn in Hj.
      apply lookup_alter_wstate in Hj as [(_ & -> & _)|[_ Hj]]; [auto|eauto].
    + destruct (st_workers s !! 0) as [[p w]|] eqn:H0.
      * destruct (Hw 0 p w H0) as [-> | ->]; discriminate.
      * exfalso. apply Hne. rewrite <- Hpages.
        destruct (st_workers s); [reflexivity|discriminate].
  - unfold step_worker in Hstep.
    destruct (st_workers s !! k) as [[p w]|] eqn:Hk; [|discriminate].
    destruct (Hw k p w Hk) as [-> | ->]; [discriminate|].
    destruct (st_sem s) eqn:Hs; [discriminate|]. lia.
Qed.

Lemma all_waiting_exec pages net sched s s' :
  Inv' 0 pages s -> pages <> [] ->
  all_waiting s -> st_net s = net ->
  exec' sched s = Some s' ->
  all_waiting s' /\ st_net s' = net.
Proof.
  revert s. induction sched as [|a sched IH]; intros s Hinv Hne Hw Hnet; cbn.
  - intros [= <-]. auto.
  - destruct (step _ _ a s) as [s1|] eqn:Hstep; [|discriminate].
    destruct (all_waiting_step _ _ _ _ _ Hinv Hne Hw Hnet Hstep) as [Hw1 Hnet1].
    apply IH; [eapply Inv_step; eassumption|assumption..].
Qed.

(** With a concurrency of 0 the semaphore never gives a permit: no page
    is ever fetched and, for a chapter that has pages, [get] neither
    returns nor raises. *)
Theorem zero_permits_block_get g chapter w s0 sched s :
  get_begin expanduser denied get_pages g chapter w = Running s0 ->
  concurrency g = 0 ->
  exec get_image_uri requests_get sched s0 = Some s ->
  in_flight s = 0 /\
  st_net s = st_net s0 /\
  is_done (st_main s) = false.
Proof.
  intros Hbegin Hc Hexec.
  pose proof (get_begin_Inv _ _ _ _ Hbegin) as Hinv0. rewrite Hc in Hinv0.
  pose proof (get_begin_Running _ _ _ _ Hbegin)
    as (pages & Hp & Hne & _ & _ & _ & _ & _ & Ew & _ & _ & _ & _ & Em).
  assert (Hpages : (st_workers s0).*1 <> []).
  { rewrite Ew. destruct pages; [congruence|discriminate]. }
  assert (H0 : all_waiting s0).
  { split; [|rewrite Em; exact I]. intros j p v Hj. rewrite Ew in Hj.
    rewrite list_lookup_fmap in Hj. destruct (pages !! j); [|discriminate].
    injection Hj as _ <-. auto. }
  destruct (all_waiting_exec _ (st_net s0) _ _ _ Hinv0 Hpages H0 eq_refl Hexec)
    as [[_ Hm] Hnet].
  pose proof (Inv_exec _ _ _ _ _ _ _ Hinv0 Hexec) as (_ & _ & Hsem & _).
  split; [lia|]. split; [exact Hnet|].
  destruct (st_main s); try reflexivity. contradiction.
Qed.

End GetThreads.

(** * Runs on concrete chapters *)

Module Run.

(** A site with a chapter of two pages; the image of a page is at the
    address of the page followed by [.jpg]. *)
Definition page1 : Page := mkPage "1" "http://m.test/c1/1.html".
Definition page2 : Page := mkPage "2" "http://m.test/c1/2.html".
Definition chapter1 : Chapter := mkChapter "1" "t_c001" "http://m.test/c1".

Definition home (p : string) : string := p.
Definition allowed (p : string) : bool := false.
Definition two_pages (uri : string) : py (list Page) := Ret [page1; page2].
Definition no_pages (uri : string) : py (list Page) := Ret [].
Definition same_name_pages (uri : string) : py (list Page) :=
  Ret [page1; mkPage "1" "http://m.test/c1/2.html"].
Definition image_uri (page_uri : string) : py string := Ret (page_uri +:+ ".jpg").
Definition image1 : bytes := [Byte.xff; Byte.xd8; Byte.x01].
Definition image2 : bytes := [Byte.xff; Byte.xd8; Byte.x02].
Definition serve (url : string) : http_result :=
  if String.eqb url "http://m.test/c1/1.html.jpg"
  then Responded (mkResponse 200 image1)
  else Responded (mkResponse 200 image2).

(** The adapter raises [MangaException] for the first page. *)
Definition image_uri_fails (page_uri : string) : py string :=
  if String.eqb page_uri "http://m.test/c1/1.html"
  then Raise (MangaException "no image")
  else Ret (page_uri +:+ ".jpg").

(** The connection breaks while the second image is fetched. *)
Definition serve_breaks (url : string) : http_result :=
  if String.eqb url "http://m.test/c1/1.html.jpg"
  then Responded (mkResponse 200 image1)
  else TransportError "Connection reset by peer".

Definition manga : GetManga := GetManga_init "t".
Definition manga_one : GetManga := mkGetManga 1 "." "t".
Definition manga_nowhere : GetManga := mkGetManga 4 "" "t".

Definition disk : filesystem := {[ "." := Dir ]}.
Definition world0 : world := mkWorld disk [] [].
Definition old_archive : file_content := Raw [Byte.x50; Byte.x4b].
Definition world_done : world :=
  mkWorld (<["./t_c001.cbz" := File old_archive]> disk) [] [].
Definition world_cwd : world :=
  mkWorld {[ "t_c001.cbz" := File old_archive ]} [] [].

(** The state in which the threads start, when [get] gets that far. *)
Definition running (st : started) : state :=
  match st with
  | Running s => s
  | Finished w _ => mkState (w_fs w) (w_out w) (w_net w) "" "" [] 0 [] [] [] (MDone (Ret tt))
  end.

Definition start2 : state := running (get_begin home allowed two_pages manga chapter1 world0).
Definition start2_one : state :=
  running (get_begin home allowed two_pages manga_one chapter1 world0).

(** The threads are started, then the first page is fetched to its end
    before the second, or after it. *)
Definition in_order : list actor :=
  [Main; Main; Main; Worker 0; Worker 0; Worker 0; Worker 1; Worker 1; Worker 1;
   Main; Main; Main; Main; Main].
Definition second_first : list actor :=
  [Main; Main; Main; Worker 1; Worker 1; Worker 1; Worker 0; Worker 0; Worker 0;
   Main; Main; Main; Main; Main].

(** C1, as stated, fails: the pages are listed as 1, 2; the fetch of
    page 2 ends first, and the archive holds 2 before 1. *)
Lemma archive_order_follows_completion :
  two_pages (ch_uri chapter1) = Ret [page1; page2] /\
  exists w',
    get home allowed two_pages image_uri serve manga chapter1 world0 second_first
      = Some (w', Ret tt) /\
    w_fs w' !! "./t_c001.cbz" =
      Some (File (Zip true [("2.jpg", image2); ("1.jpg", image1)])).
Proof.
  split; [reflexivity|]. eexists. split; vm_compute; reflexivity.
Qed.

Lemma archive_in_completion_order_witness :
  (exists sched s,
     exec image_uri serve sched start2 = Some s /\ st_main s = MDone (Ret tt)) /\
  (forall sched s,
     exec image_uri serve sched start2 = Some s -> st_main s = MDone (Ret tt) ->
     exists members,
       st_fs s !! cbz_file_of home manga chapter1 = Some (File (Zip true members)) /\
       map entry_item members = st_qlog s /\
       members ≡ₚ omap (page_entry image_uri serve) [page1; page2] /\
       length members = length [page1; page2] /\
       (st_qlog s = omap (page_item image_uri serve) [page1; page2] ->
        members = omap (page_entry image_uri serve) [page1; page2])).
Proof.
  apply (archive_in_completion_order home allowed two_pages image_uri serve
           manga chapter1 world0 start2 [page1; page2]).
  - vm_compute; reflexivity.
  - reflexivity.
  - vm_compute; reflexivity.
  - cbn; lia.
  - vm_compute; reflexivity.
Defined.

(** C8, as stated, fails: two pages of the list carry the name 1, both
    are fetched, and the archive has two members named [1.jpg]. *)
Lemma duplicate_member_names :
  exists w' members,
    get home allowed same_name_pages image_uri serve manga chapter1 world0 in_order
      = Some (w', Ret tt) /\
    w_fs w' !! "./t_c001.cbz" = Some (File (Zip true members)) /\
    members.*1 = ["1.jpg"; "1.jpg"].
Proof.
  eexists _, _. split; [vm_compute; reflexivity|].
  split; vm_compute; reflexivity.
Qed.

(** The state a schedule leads to. *)
Definition after (get_image_uri : string -> py string)
    (requests_get : string -> http_result) (sched : list actor) (s0 : state) : state :=
  default s0 (exec get_image_uri requests_get sched s0).

Lemma distinct_pages_distinct_members_witness :
  exists members,
    st_fs (after image_uri serve second_first start2)
      !! cbz_file_of home manga chapter1 = Some (File (Zip true members)) /\
    length members = length [page1; page2] /\
    NoDup members.*1.
Proof.
  apply (distinct_pages_distinct_members home allowed two_pages image_uri serve
           manga chapter1 world0 start2 [page1; page2] second_first
           (after image_uri serve second_first start2)).
  - vm_compute; reflexivity.
  - reflexivity.
  - vm_compute; reflexivity.
  - vm_compute; reflexivity.
  - apply NoDup_cons. split; [|apply NoDup_singleton].
    intros Hin. apply list_elem_of_singleton in Hin. discriminate.
Defined.

(** Both workers hold a permit. *)
Definition both_fetching : list actor := [Main; Main; Main; Worker 0; Worker 1].

Lemma in_flight_bounded_witness :
  in_flight (after image_uri serve both_fetching start2) <= concurrency manga /\
  st_sem (after image_uri serve both_fetching start2)
    + in_flight (after image_uri serve both_fetching start2) = concurrency manga /\
  concurrency (GetManga_init (title manga)) = 4.
Proof.
  apply (in_flight_bounded home allowed two_pages image_uri serve
           manga chapter1 world0 start2 both_fetching).
  - vm_compute; reflexivity.
  - vm_compute; reflexivity.
Defined.

(** Both pages are fetched, the second one in vain, and the main
    thread asks the queue for a second item. *)
Definition until_second_get : list actor :=
  [Main; Main; Main; Worker 0; Worker 0; Worker 0; Worker 1; Worker 1; Worker 1;
   Main; Main; Main].

(** C2 on the code: the connection breaks under the second of two
    pages.  [uriopen] raises the exception of [requests], the worker
    ends with nothing put, and under no schedule does [get] return or
    raise; the temporary file stays.  The schedule above ends with every
    worker terminated and the main thread at [queue.get()] before an
    empty queue. *)
Theorem transport_error_blocks_get :
  (uriopen serve_breaks "http://m.test/c1/2.html.jpg" []).1 =
    Raise (RequestException "Connection reset by peer") /\
  (forall sched,
     get home allowed two_pages image_uri serve_breaks manga chapter1 world0 sched
       = None /\
     forall s,
       exec image_uri serve_breaks sched start2 = Some s ->
       is_done (st_main s) = false /\
       isfile (st_fs s) "./t_c001.cbz.tmp" = true /\
       isfile (st_fs s) "./t_c001.cbz" = false) /\
  st_main (after image_uri serve_breaks until_second_get start2) = MGet 1 /\
  st_queue (after image_uri serve_breaks until_second_get start2) = [] /\
  (st_workers (after image_uri serve_breaks until_second_get start2)).*2 = [WDone; WDone].
Proof.
  split; [reflexivity|]. split; [|repeat split; vm_compute; reflexivity].
  assert (Hbegin : get_begin home allowed two_pages manga chapter1 world0 = Running start2)
    by (vm_compute; reflexivity).
  assert (Hblock : forall sched s,
             exec image_uri serve_breaks sched start2 = Some s ->
             is_done (st_main s) = false /\
             isfile (st_fs s) "./t_c001.cbz.tmp" = true /\
             isfile (st_fs s) "./t_c001.cbz" = false).
  { intros sched s Hexec.
    destruct (silent_failure_blocks home allowed two_pages image_uri serve_breaks
                manga chapter1 world0 start2 sched s Hbegin)
      as (Hnd & Htmp & Hfile); try exact Hexec; try (vm_compute; reflexivity).
    split; [exact Hnd|]. split; [|exact Hfile].
    unfold isfile.
    change (cbz_tmp_of home manga chapter1) with "./t_c001.cbz.tmp" in Htmp.
    rewrite Htmp. reflexivity. }
  intros sched. split; [|apply Hblock].
  unfold get. rewrite Hbegin.
  destruct (exec image_uri serve_breaks sched start2) as [s|] eqn:Hexec; [|reflexivity].
  destruct (Hblock sched s Hexec) as [Hnd _].
  destruct (st_main s); try reflexivity. discriminate.
Qed.

(** One permit: the first page fails in the adapter, the main thread
    takes the failure from the queue and [get] raises; the worker of the
    second page is still waiting for the permit. *)
Definition failure_seen : list actor :=
  [Main; Main; Main; Worker 0; Worker 0; Worker 0; Main].
Definition failure_raised : list actor := failure_seen ++ [Main].
Definition seen : state := after image_uri_fails serve failure_seen start2_one.
Definition raised : state := after image_uri_fails serve failure_raised start2_one.
Definition resumed : state := after image_uri_fails serve [Worker 1; Worker 1] raised.

(** C3, as stated, fails: after [get] has raised, the worker of the
    second page gets the permit and fetches its page and its image. *)
Lemma fetch_started_after_failure :
  exec image_uri_fails serve failure_raised start2_one = Some raised /\
  st_main raised = MDone (Raise (MangaException "no image")) /\
  st_workers raised !! 1 = Some (page2, WAcquire) /\
  st_net raised = [GetPages "http://m.test/c1"; GetImageUri "http://m.test/c1/1.html"] /\
  exec image_uri_fails serve [Worker 1; Worker 1] raised = Some resumed /\
  st_net resumed = st_net raised ++ [GetImageUri "http://m.test/c1/2.html";
                                     HttpGet "http://m.test/c1/2.html.jpg"].
Proof.
  split; [vm_compute; reflexivity|]. split; [vm_compute; reflexivity|].
  split; [vm_compute; reflexivity|]. split; [vm_compute; reflexivity|].
  split; vm_compute; reflexivity.
Qed.

Lemma failure_observed_is_final_witness :
  all_started (st_workers seen) /\
  exists s1,
    step image_uri_fails serve Main seen = Some s1 /\
    st_main s1 = MDone (Raise (MangaException "no image")) /\
    st_fs s1 !! cbz_tmp_of home manga_one chapter1 = None /\
    isfile (st_fs s1) (cbz_file_of home manga_one chapter1) = false /\
    st_filelist s1 = st_filelist seen /\
    (forall sched' s2, exec image_uri_fails serve sched' s1 = Some s2 ->
       st_main s2 = st_main s1 /\ st_fs s2 = st_fs s1 /\
       st_filelist s2 = st_filelist s1 /\ st_out s2 = st_out s1).
Proof.
  apply (failure_observed_is_final home allowed two_pages image_uri_fails serve
           manga_one chapter1 world0 start2_one failure_seen seen 0 "no image" []).
  - vm_compute; reflexivity.
  - vm_compute; reflexivity.
  - vm_compute; reflexivity.
  - vm_compute; reflexivity.
Defined.

(** C5, as stated, fails: the output directory is the empty path, the
    archive is in the current directory; [os.makedirs('')] raises and
    [get] raises [MangaException] before it looks for the file. *)
Lemma existing_archive_but_get_raises :
  isfile (w_fs world_cwd) (cbz_file_of home manga_nowhere chapter1) = true /\
  get home allowed two_pages image_uri serve manga_nowhere chapter1 world_cwd []
    = Some (world_cwd, Raise (MangaException "No such file or directory")).
Proof.
  split; vm_compute; reflexivity.
Qed.

Lemma get_skips_existing_archive_witness :
  exists w' r,
    get home allowed two_pages image_uri serve manga chapter1 world_done in_order
      = Some (w', r) /\
    w_net w' = w_net world_done /\
    w_fs w' !! cbz_file_of home manga chapter1
      = w_fs world_done !! cbz_file_of home manga chapter1 /\
    isfile (w_fs w') (cbz_tmp_of home manga chapter1)
      = isfile (w_fs world_done) (cbz_tmp_of home manga chapter1) /\
    r = match get_dir home allowed manga (w_fs world_done) with
        | Ret _ => Ret tt
        | Raise e => Raise (MangaException (str_exn e))
        end /\
    (isdir (w_fs world_done) (home (path manga)) = true ->
     r = Ret tt /\ w_fs w' = w_fs world_done).
Proof.
  apply (get_skips_existing_archive home allowed two_pages image_uri serve
           manga chapter1 world_done in_order).
  vm_compute; reflexivity.
Defined.

(** C7, as stated, fails: the chapter has no page, [progress(0, 0)]
    raises, and [get] raises with it instead of leaving the empty
    archive it would otherwise rename into place. *)
Lemma progress_error_aborts_get :
  (progress 0 (length (@nil Page)) []).1 = Raise (MangaException "Unknown error") /\
  exists w',
    get home allowed no_pages image_uri serve manga chapter1 world0 []
      = Some (w', Raise (MangaException "Unknown error")) /\
    isfile (w_fs w') "./t_c001.cbz" = false.
Proof.
  split; [reflexivity|]. eexists. split; vm_compute; reflexivity.
Qed.

Definition disk_tmp : filesystem := <["./t_c001.cbz.tmp" := File (Zip false [])]> disk.

Lemma progress_error_is_fatal_witness :
  @nil Page = [] /\
  exists w' msg,
    get home allowed no_pages image_uri serve manga chapter1 world0 []
      = Some (w', Raise (MangaException msg)) /\
    (progress 0 (length (@nil Page)) (w_out w')).1 = Raise (MangaException msg) /\
    isfile (w_fs w') (cbz_file_of home manga chapter1) = false /\
    isfile (w_fs w') (cbz_tmp_of home manga chapter1) = true.
Proof.
  apply (progress_error_is_fatal home allowed no_pages image_uri serve
           manga chapter1 world0 disk disk_tmp [] []).
  - vm_compute; reflexivity.
  - vm_compute; reflexivity.
  - vm_compute; reflexivity.
  - reflexivity.
  - reflexivity.
Defined.

Lemma get_empty_chapter_leaves_tmp_witness :
  exists w',
    get home allowed no_pages image_uri serve manga chapter1 world0 []
      = Some (w', Raise (MangaException "Unknown error")) /\
    (progress 0 (length (@nil Page)) (w_out w')).1 =
      Raise (MangaException "Unknown error") /\
    w_fs w' !! cbz_tmp_of home manga chapter1 = Some (File (Zip false [])) /\
    isfile (w_fs w') (cbz_tmp_of home manga chapter1) = true /\
    isfile (w_fs w') (cbz_file_of home manga chapter1) = false /\
    w_net w' = w_net world0 ++ [GetPages (ch_uri chapter1)].
Proof.
  apply (get_empty_chapter_leaves_tmp home allowed no_pages image_uri serve
           manga chapter1 world0 disk disk_tmp []).
  - vm_compute; reflexivity.
  - vm_compute; reflexivity.
  - vm_compute; reflexivity.
  - reflexivity.
Defined.

(** *** Further runs *)

Definition returned : state := after image_uri serve second_first start2.


Lemma final_path_all_or_nothing_witness :
  st_main returned = MDone (Ret tt) /\
  st_fs returned !! cbz_file_of home manga chapter1
    = Some (File (Zip true (st_filelist returned))) /\
  length (st_filelist returned) = length (st_workers start2).*1 /\
  st_filelist returned ≡ₚ omap (page_entry image_uri serve) (st_workers start2).*1.
Proof.
  apply (final_path_all_or_nothing home allowed two_pages image_uri serve
           manga chapter1 world0 start2 second_first returned).
  - vm_compute; reflexivity.
  - vm_compute; reflexivity.
  - vm_compute; reflexivity.
Defined.




Lemma get_can_always_finish_witness :
  exists rest s',
    exec image_uri serve (both_fetching ++ rest) start2 = Some s' /\
    is_done (st_main s') = true.
Proof.
  apply (get_can_always_finish home allowed two_pages image_uri serve
           manga chapter1 world0 start2 [page1; page2] both_fetching
           (after image_uri serve both_fetching start2)).
  - vm_compute; reflexivity.
  - reflexivity.
  - cbn; lia.
  - vm_compute; reflexivity.
  - vm_compute; reflexivity.
Defined.

Lemma progress_reports_in_order_witness :
  st_out returned =
    w_out world0
    ++ [Text ("downloading " +:+ title manga +:+ " " +:+ ch_number chapter1 +:+ ":" +:+ newline)]
    ++ bars (length [page1; page2]) 0 (S (length (st_filelist returned))) /\
  (st_main returned = MDone (Ret tt) ->
   length (st_filelist returned) = length [page1; page2]).
Proof.
  apply (progress_reports_in_order home allowed two_pages image_uri serve
           manga chapter1 world0 start2 [page1; page2] second_first returned).
  - vm_compute; reflexivity.
  - reflexivity.
  - vm_compute; reflexivity.
Defined.

Lemma unreported_failure_blocks_get_witness :
  get home allowed two_pages image_uri serve_breaks manga chapter1 world0 in_order = None /\
  forall s,
    exec image_uri serve_breaks in_order start2 = Some s ->
    is_done (st_main s) = false /\
    isfile (st_fs s) (cbz_tmp_of home manga chapter1) = true /\
    isfile (st_fs s) (cbz_file_of home manga chapter1) = false.
Proof.
  apply (unreported_failure_blocks_get home allowed two_pages image_uri serve_breaks
           manga chapter1 world0 start2 [page1; page2] in_order).
  - vm_compute; reflexivity.
  - reflexivity.
  - vm_compute; reflexivity.
  - vm_compute; reflexivity.
Defined.

(** No permit at all. *)
Definition manga_zero : GetManga := mkGetManga 0 "." "t".
Definition start2_zero : state :=
  running (get_begin home allowed two_pages manga_zero chapter1 world0).
Definition all_started_only : list actor := [Main; Main; Main].

Lemma zero_permits_block_get_witness :
  in_flight (after image_uri serve all_started_only start2_zero) = 0 /\
  st_net (after image_uri serve all_started_only start2_zero) = st_net start2_zero /\
  is_done (st_main (after image_uri serve all_started_only start2_zero)) = false.
Proof.
  apply (zero_permits_block_get home allowed two_pages image_uri serve
           manga_zero chapter1 world0 start2_zero all_started_only).
  - vm_compute; reflexivity.
  - reflexivity.
  - vm_compute; reflexivity.
Defined.

End Run.

(** * The titles of the site adapters *)

Fixpoint all_chars (P : ascii -> bool) (s : string) : bool :=
  match s with
  | EmptyString => true
  | String c s' => P c && all_chars P s'
  end.

Definition starts_in (keep : ascii -> bool) (s : string) : bool :=
  match s with EmptyString => true | String c _ => keep c end.

(** Outside the class only [rep] occurs, and never twice in a row;
    [in_run] tells that the character before was outside the class. *)
Fixpoint single_runs (keep : ascii -> bool) (rep : ascii) (in_run : bool) (s : string)
  : bool :=
  match s with
  | EmptyString => true
  | String c s' =>
      if keep c then single_runs keep rep false s'
      else Ascii.eqb c rep && negb in_run && single_runs keep rep true s'
  end.

Lemma all_chars_impl (P Q : ascii -> bool) s :
  (forall c, P c = true -> Q c = true) -> all_chars P s = true -> all_chars Q s = true.
Proof.
  intros HPQ. induction s as [|c s IH]; [reflexivity|]. cbn.
  intros [Hc Hs]%andb_prop. rewrite (HPQ c Hc), (IH Hs). reflexivity.
Qed.

Lemma lower_fixed s :
  all_chars (fun c => negb (in_range 65 90 c)) s = true -> lower s = s.
Proof.
  induction s as [|c s IH]; [reflexivity|]. cbn.
  intros [Hc Hs]%andb_prop. unfold lower in *. rewrite (IH Hs).
  unfold lower_char. destruct (in_range 65 90 c); [discriminate|reflexivity].
Qed.

Lemma is_alnum_not_upper c : is_alnum c = true -> in_range 65 90 c = false.
Proof.
  unfold is_alnum, in_range. intros H.
  destruct (Nat.leb_spec 65 (nat_of_ascii c)); [|reflexivity].
  destruct (Nat.leb_spec (nat_of_ascii c) 90); [|reflexivity].
  destruct (Nat.leb_spec 97 (nat_of_ascii c)); [lia|].
  destruct (Nat.leb_spec 48 (nat_of_ascii c)); [|discriminate].
  destruct (Nat.leb_spec (nat_of_ascii c) 57); [lia|discriminate].
Qed.

Section Runs.
Variable keep : ascii -> bool.
Variable rep : ascii.
Hypothesis rep_outside : keep rep = false.

Lemma sub_runs_chars b s :
  all_chars (fun c => keep c || Ascii.eqb c rep) (sub_runs keep rep b s) = true.
Proof.
  revert b. induction s as [|c s IH]; intros b; [reflexivity|]. cbn.
  destruct (keep c) eqn:Hc; cbn; [rewrite Hc; apply IH|].
  destruct b; [apply IH|]. cbn. rewrite Ascii.eqb_refl, orb_true_r. apply IH.
Qed.

Lemma sub_runs_single b s : single_runs keep rep b (sub_runs keep rep b s) = true.
Proof.
  revert b. induction s as [|c s IH]; intros b; [reflexivity|]. cbn.
  destruct (keep c) eqn:Hc; cbn; [rewrite Hc; apply IH|].
  destruct b; [apply IH|]. cbn. rewrite rep_outside, Ascii.eqb_refl. apply IH.
Qed.

Lemma single_runs_fixed b s :
  single_runs keep rep b s = true -> sub_runs keep rep b s = s.
Proof.
  revert b. induction s as [|c s IH]; intros b; [reflexivity|]. cbn.
  destruct (keep c) eqn:Hc.
  - intros H. rewrite (IH _ H). reflexivity.
  - intros [[Heq Hb]%andb_prop Hs]%andb_prop.
    apply Ascii.eqb_eq in Heq. subst c.
    destruct b; [discriminate|]. rewrite (IH _ Hs). reflexivity.
Qed.

Lemma sub_runs_idem s :
  sub_runs keep rep false (sub_runs keep rep false s) = sub_runs keep rep false s.
Proof. apply single_runs_fixed, sub_runs_single. Qed.

Lemma strip_tail_keep c s :
  keep c = true -> strip_tail keep (String c s) = String c (strip_tail keep s).
Proof. intros Hc. cbn. rewrite Hc. destruct (strip_tail keep s); reflexivity. Qed.

Lemma strip_tail_idem s : strip_tail keep (strip_tail keep s) = strip_tail keep s.
Proof.
  induction s as [|c s IH]; [reflexivity|]. cbn.
  destruct (strip_tail keep s) as [|d r] eqn:Hr.
  - destruct (keep c) eqn:Hc; [cbn; rewrite Hc|]; reflexivity.
  - change (strip_tail keep (String c (String d r)))
      with (match strip_tail keep (String d r) with
            | EmptyString => if keep c then String c EmptyString else EmptyString
            | r0 => String c r0
            end).
    rewrite IH. reflexivity.
Qed.

Lemma strip_tail_fixed_cons c s :
  strip_tail keep (String c s) = String c s ->
  strip_tail keep s = s /\ (keep c = true \/ s <> EmptyString).
Proof.
  cbn. destruct (strip_tail keep s) as [|d r] eqn:Hr.
  - destruct (keep c); [|discriminate]. intros [= <-]. auto.
  - intros [= <-]. split; [reflexivity|]. right. discriminate.
Qed.

Lemma sub_runs_nonempty b s :
  strip_tail keep s = s -> s <> EmptyString -> sub_runs keep rep b s <> EmptyString.
Proof.
  revert b. induction s as [|c s IH]; intros b Hfix Hne; [congruence|].
  apply strip_tail_fixed_cons in Hfix as [Hfix Hc]. cbn.
  destruct (keep c) eqn:Hk; [discriminate|].
  destruct Hc as [Hc|Hs]; [discriminate|].
  destruct b; [apply IH; assumption|discriminate].
Qed.

Lemma strip_tail_sub_runs b s :
  strip_tail keep s = s ->
  strip_tail keep (sub_runs keep rep b s) = sub_runs keep rep b s.
Proof.
  revert b. induction s as [|c s IH]; intros b Hfix; [reflexivity|].
  apply strip_tail_fixed_cons in Hfix as [Hfix Hc]. cbn [sub_runs].
  destruct (keep c) eqn:Hk.
  - rewrite strip_tail_keep by exact Hk. rewrite IH by exact Hfix. reflexivity.
  - destruct Hc as [Hc|Hs]; [discriminate|].
    destruct b; [apply IH, Hfix|].
    pose proof (sub_runs_nonempty true s Hfix Hs) as Hne.
    cbn [strip_tail]. rewrite IH by exact Hfix.
    destruct (sub_runs keep rep true s); [congruence|reflexivity].
Qed.

Lemma strip_head_starts s : starts_in keep (strip_head keep s) = true.
Proof.
  induction s as [|c s IH]; [reflexivity|]. cbn.
  destruct (keep c) eqn:Hc; [exact Hc|exact IH].
Qed.

Lemma strip_tail_starts s :
  starts_in keep s = true -> starts_in keep (strip_tail keep s) = true.
Proof.
  destruct s as [|c s]; [reflexivity|]. cbn [starts_in]. intros Hc.
  rewrite strip_tail_keep by exact Hc. exact Hc.
Qed.

Lemma sub_runs_starts s :
  starts_in keep s = true -> starts_in keep (sub_runs keep rep false s) = true.
Proof.
  destruct s as [|c s]; [reflexivity|]. cbn. intros Hc. rewrite Hc. exact Hc.
Qed.

Lemma strip_head_fixed s : starts_in keep s = true -> strip_head keep s = s.
Proof. destruct s as [|c s]; [reflexivity|]. cbn. intros ->. reflexivity. Qed.
End Runs.

Lemma all_chars_contains (P : ascii -> bool) c s :
  all_chars P s = true -> P c = false -> contains c s = false.
Proof.
  intros Hs Hc. induction s as [|a s IH]; [reflexivity|]. cbn in *.
  apply andb_prop in Hs as [Ha Hs]. rewrite (IH Hs), orb_false_r.
  destruct (Ascii.eqb_spec a c) as [->|]; [congruence|reflexivity].
Qed.

Lemma all_chars_filter (keep : ascii -> bool) s :
  all_chars keep (filter_string keep s) = true.
Proof.
  induction s as [|c s IH]; [reflexivity|]. cbn.
  destruct (keep c) eqn:Hc; [cbn; rewrite Hc|]; exact IH.
Qed.

Lemma filter_string_fixed (keep : ascii -> bool) s :
  all_chars keep s = true -> filter_string keep s = s.
Proof.
  induction s as [|c s IH]; [reflexivity|]. cbn.
  intros [Hc Hs]%andb_prop. rewrite Hc, (IH Hs). reflexivity.
Qed.

Lemma map_string_fixed (f : ascii -> ascii) (P : ascii -> bool) s :
  (forall c, P c = true -> f c = c) -> all_chars P s = true -> map_string f s = s.
Proof.
  intros Hf. induction s as [|c s IH]; [reflexivity|]. cbn.
  intros [Hc Hs]%andb_prop. rewrite (Hf c Hc), (IH Hs). reflexivity.
Qed.

Lemma length_map_string f s : String.length (map_string f s) = String.length s.
Proof. induction s as [|c s IH]; [reflexivity|]. cbn. rewrite IH. reflexivity. Qed.

Lemma length_filter_string keep s :
  String.length (filter_string keep s) <= String.length s.
Proof.
  induction s as [|c s IH]; [reflexivity|]. cbn.
  destruct (keep c); cbn; lia.
Qed.

(** [MangaSite.title] gives a normal form: lower case letters, digits
    and underscores only, hence no slash; no underscore at either end;
    and applying it to its own result changes nothing. *)
Theorem site_title_normal_form :
  forall input_title : string,
    all_chars (fun c => is_alnum c || Ascii.eqb c "_"%char) (site_title input_title) = true /\
    contains "/"%char (site_title input_title) = false /\
    strip_head is_alnum (site_title input_title) = site_title input_title /\
    strip_tail is_alnum (site_title input_title) = site_title input_title /\
    site_title (site_title input_title) = site_title input_title.
Proof.
  intros t. unfold site_title.
  set (u := strip_tail is_alnum (strip_head is_alnum (lower t))).
  set (out := sub_runs is_alnum "_"%char false u).
  assert (Hchars : all_chars (fun c => is_alnum c || Ascii.eqb c "_"%char) out = true)
    by apply sub_runs_chars.
  assert (Hu : strip_tail is_alnum u = u) by apply strip_tail_idem.
  assert (Hhead : strip_head is_alnum out = out).
  { apply strip_head_fixed, sub_runs_starts, strip_tail_starts, strip_head_starts. }
  assert (Htail : strip_tail is_alnum out = out) by (apply strip_tail_sub_runs, Hu).
  assert (Hlow : lower out = out).
  { apply lower_fixed. eapply all_chars_impl; [|exact Hchars].
    intros c [Hc|Hc]%orb_prop.
    - rewrite (is_alnum_not_upper c Hc). reflexivity.
    - apply Ascii.eqb_eq in Hc. subst c. reflexivity. }
  split; [exact Hchars|].
  split; [eapply all_chars_contains; [exact Hchars|reflexivity]|].
  split; [exact Hhead|]. split; [exact Htail|].
  rewrite Hlow, Hhead, Htail. apply sub_runs_idem. reflexivity.
Qed.

(** [MangaAnimea.title] gives a normal form: lower case letters,
    digits, underscores and single hyphens; applying it to its own
    result changes nothing. *)
Theorem animea_title_normal_form :
  forall input_title : string,
    all_chars (fun c => animea_keep c || Ascii.eqb c "-"%char) (animea_title input_title) = true /\
    single_runs animea_keep "-"%char false (animea_title input_title) = true /\
    animea_title (animea_title input_title) = animea_title input_title.
Proof.
  intros t. unfold animea_title.
  set (out := sub_runs animea_keep "-"%char false (lower t)).
  assert (Hchars : all_chars (fun c => animea_keep c || Ascii.eqb c "-"%char) out = true)
    by apply sub_runs_chars.
  split; [exact Hchars|]. split; [apply sub_runs_single; reflexivity|].
  assert (Hlow : lower out = out).
  { apply lower_fixed. eapply all_chars_impl; [|exact Hchars].
    unfold animea_keep. intros c [[Hc|Hc]%orb_prop|Hc]%orb_prop.
    - rewrite (is_alnum_not_upper c Hc). reflexivity.
    - apply Ascii.eqb_eq in Hc. subst c. reflexivity.
    - apply Ascii.eqb_eq in Hc. subst c. reflexivity. }
  rewrite Hlow. apply sub_runs_idem. reflexivity.
Qed.

(** [MangaReader.title] keeps lower case letters, digits and hyphens
    only, never lengthens its input, and applying it to its own result
    changes nothing. *)
Theorem reader_title_normal_form :
  forall input_title : string,
    all_chars reader_keep (reader_title input_title) = true /\
    String.length (reader_title input_title) <= String.length input_title /\
    reader_title (reader_title input_title) = reader_title input_title.
Proof.
  intros t. unfold reader_title.
  set (out := filter_string reader_keep (map_string reader_dash (lower t))).
  assert (Hchars : all_chars reader_keep out = true) by apply all_chars_filter.
  split; [exact Hchars|]. split.
  - subst out. etransitivity; [apply length_filter_string|].
    unfold lower. rewrite !length_map_string. reflexivity.
  - assert (Hlow : lower out = out).
    { apply lower_fixed. eapply all_chars_impl; [|exact Hchars].
      unfold reader_keep. intros c [Hc|Hc]%orb_prop.
      - apply Ascii.eqb_eq in Hc. subst c. reflexivity.
      - rewrite (is_alnum_not_upper c Hc). reflexivity. }
    assert (Hdash : map_string reader_dash out = out).
    { apply (map_string_fixed _ reader_keep); [|exact Hchars].
      intros c Hc. unfold reader_dash.
      destruct (Ascii.eqb_spec c " "%char) as [->|]; [discriminate|].
      destruct (Ascii.eqb_spec c "_"%char) as [->|]; [discriminate|]. reflexivity. }
    rewrite Hlow, Hdash. apply filter_string_fixed, Hchars.
Qed.

(** * The address of an image *)

Lemma py_find_absent c s : contains c s = false -> py_find c s = (-1)%Z.
Proof.
  induction s as [|a s IH]; [reflexivity|]. cbn.
  destruct (Ascii.eqb a c); [discriminate|]. cbn.
  intros H. rewrite (IH H). reflexivity.
Qed.

Lemma py_find_present c s :
  contains c s = true ->
  exists pre rest,
    s = pre +:+ String c rest /\ contains c pre = false /\
    py_find c s = Z.of_nat (String.length pre).
Proof.
  induction s as [|a s IH]; [discriminate|]. cbn.
  destruct (Ascii.eqb_spec a c) as [->|Hne].
  - intros _. exists EmptyString, s. auto.
  - cbn. intros (pre & rest & -> & Hpre & Hfind)%IH.
    exists (String a pre), rest. split; [reflexivity|]. split.
    + cbn. destruct (Ascii.eqb_spec a c); [congruence|exact Hpre].
    + rewrite Hfind. cbn [String.length].
      destruct (Z.of_nat (String.length pre)) eqn:Hz; lia.
Qed.

Lemma take_string_app pre s : take_string (String.length pre) (pre +:+ s) = pre.
Proof.
  induction pre as [|a pre IH]; [destruct s; reflexivity|].
  change (String a pre +:+ s) with (String a (pre +:+ s)).
  cbn. rewrite IH. reflexivity.
Qed.

Lemma take_string_split n s :
  exists tail,
    s = take_string n s +:+ tail /\ String.length tail = String.length s - n.
Proof.
  revert n. induction s as [|a s IH]; intros [|n]; cbn.
  - exists EmptyString. auto.
  - exists EmptyString. auto.
  - exists (String a s). auto.
  - destruct (IH n) as (tail & Hs & Hl). exists tail. split; [|exact Hl].
    change (String a (take_string n s) +:+ tail)
      with (String a (take_string n s +:+ tail)).
    rewrite <- Hs. reflexivity.
Qed.

(** [get_image_uri] cuts the [src] attribute at its first question
    mark; when there is none, [find] gives [-1] and the slice drops the
    last character of the address. *)
Theorem image_uri_cut_at_query :
  forall src_url : string,
    if contains "?"%char src_url
    then (exists rest, src_url = image_uri_of_src src_url +:+ String "?"%char rest) /\
         contains "?"%char (image_uri_of_src src_url) = false
    else exists tail,
           src_url = image_uri_of_src src_url +:+ tail /\
           String.length tail = Nat.min 1 (String.length src_url).
Proof.
  intros src. unfold image_uri_of_src, py_slice_to.
  destruct (contains "?"%char src) eqn:Hq.
  - apply py_find_present in Hq as (pre & rest & -> & Hpre & ->).
    destruct (Z.ltb_spec (Z.of_nat (String.length pre)) 0); [lia|].
    rewrite Nat2Z.id, take_string_app. split; [eauto|exact Hpre].
  - rewrite (py_find_absent _ _ Hq).
    replace (-1 <? 0)%Z with true by reflexivity.
    destruct (take_string_split
                (Z.to_nat (Z.max 0 (-1 + Z.of_nat (String.length src)))) src)
      as (tail & Hs & Hl).
    exists tail. split; [exact Hs|]. rewrite Hl. lia.
Qed.

(** * Chapter numbers and page lists *)

Lemma length_split_one c s : contains c s = false -> split c s = [s].
Proof.
  induction s as [|a s IH]; [reflexivity|]. cbn.
  destruct (Ascii.eqb a c); [discriminate|]. cbn.
  intros H. rewrite (IH H). reflexivity.
Qed.

Lemma length_split_two c s : contains c s = true -> 2 <= length (split c s).
Proof.
  induction s as [|a s IH]; [discriminate|]. cbn.
  pose proof (split_nonempty c s) as Hne.
  destruct (Ascii.eqb a c); cbn.
  - intros _. destruct (split c s); [congruence|cbn; lia].
  - intros H. specialize (IH H). destruct (split c s); cbn in *; lia.
Qed.

Lemma py_index_in_range {A} (l : list A) (i : Z) :
  (- Z.of_nat (length l) <= i < Z.of_nat (length l))%Z ->
  exists x, py_index l i = Ret x.
Proof.
  intros Hi. unfold py_index.
  set (j := if (i <? 0)%Z then (i + Z.of_nat (length l))%Z else i).
  assert (Hj : (0 <= j < Z.of_nat (length l))%Z).
  { subst j. destruct (Z.ltb_spec i 0); lia. }
  destruct (Z.ltb_spec j 0); [lia|].
  destruct (Z.leb_spec (Z.of_nat (length l)) j); [lia|]. cbn.
  destruct (l !! Z.to_nat j) eqn:Hl; [eauto|].
  apply lookup_ge_None in Hl. lia.
Qed.

Lemma lstrip_char_head c s : starts_in (fun a => negb (Ascii.eqb a c)) (lstrip_char c s) = true.
Proof.
  induction s as [|a s IH]; [reflexivity|]. cbn.
  destruct (Ascii.eqb a c) eqn:Ha; [exact IH|]. cbn. rewrite Ha. reflexivity.
Qed.

(** The chapter number of MangaFox and MangaHere is read from the last
    but one field of the address: with no slash in the address the
    index is out of range and [IndexError] is raised; otherwise the
    number is never empty and has no leading zero, [0] itself apart. *)
Theorem fox_chapter_number_shape :
  forall href : string,
    match fox_chapter_number href with
    | Ret num =>
        contains "/"%char href = true /\
        truthy num = true /\
        (num = "0" \/ starts_in (fun a => negb (Ascii.eqb a "0"%char)) num = true)
    | Raise e => e = IndexError /\ contains "/"%char href = false
    end.
Proof.
  intros href. unfold fox_chapter_number.
  destruct (contains "/"%char href) eqn:Hc.
  - pose proof (length_split_two _ _ Hc) as Hlen.
    destruct (py_index_in_range (split "/"%char href) (-2)) as [field ->]; [lia|].
    split; [reflexivity|].
    pose proof (lstrip_char_head "0"%char (lstrip_char "c"%char field)) as Hhead.
    destruct (lstrip_char "0"%char (lstrip_char "c"%char field)) as [|a num].
    + split; [reflexivity|]. left. reflexivity.
    + split; [reflexivity|]. right. exact Hhead.
  - rewrite (length_split_one _ _ Hc). split; reflexivity.
Qed.




(** * The chapter list *)

(** [MangaSite.chapters] puts a list that the site gives newest first
    into the order oldest first: it is the reverse of what the same
    anchors give on a site that lists oldest first.  Either way no
    chapter is made from an anchor whose location is not valid, and the
    list is not longer than the anchors. *)
Theorem chapters_descending_reversed :
  forall (valid : string -> bool) (mk : Anchor -> Chapter) (anchors : list Anchor),
    chapters_of true valid mk anchors = reverse (chapters_of false valid mk anchors) /\
    (forall d, length (chapters_of d valid mk anchors) <= length anchors) /\
    (forall d c,
       c ∈ chapters_of d valid mk anchors ->
       exists a, a ∈ anchors /\ valid (a_href a) = true /\ c = mk a).
Proof.
  intros valid mk anchors. unfold chapters_of. split; [|split].
  - rewrite filter_reverse, fmap_reverse. reflexivity.
  - intros d. rewrite length_fmap.
    etransitivity; [apply length_filter|].
    destruct d; [rewrite length_reverse|]; reflexivity.
  - intros d c Hc.
    apply list_elem_of_fmap in Hc as (a & -> & Ha).
    apply list_elem_of_filter in Ha as [Hv Ha].
    exists a. split; [|auto].
    destruct d; [rewrite elem_of_reverse in Ha|]; exact Ha.
Qed.
